(** * The game map of AIge-of-EmpAIres ([util/map.py])

    A shallow embedding of the [Map] class and of the part of its
    collaborators ([Coordinate], [GameObject]) that the class calls, followed
    by the properties of placement, removal, movement, region extraction and
    copying. *)

From Stdlib Require Import ZArith Lia Ascii String.
From stdpp Require Import gmap list list_numbers strings.

Local Open Scope Z_scope.

(** ** Exceptions and mutable state

    Every [raise] of [map.py] is a [ValueError] told apart by its message.
    Calling a method on [None] raises [AttributeError]. *)

Inductive exception : Type :=
| ValueError (msg : string)
| AttributeError.

Inductive result (A : Type) : Type :=
| Ok (a : A)
| Raise (e : exception).
Arguments Ok {A} a.
Arguments Raise {A} e.

Definition raises {A} (r : result A) : Prop := ∃ e, r = Raise e.

(** A method call on a mutable object of state [S]: the outcome, and the
    state the object is left in, also when the call raises. *)
Definition M (S A : Type) : Type := S → result A * S.

#[global] Instance M_ret {S} : MRet (M S) := λ A a s, (Ok a, s).
#[global] Instance M_bind {S} : MBind (M S) := λ A B f m s,
  match m s with
  | (Ok a, s') => f a s'
  | (Raise e, s') => (Raise e, s')
  end.

Definition raise {S A} (e : exception) : M S A := λ s, (Raise e, s).
Definition reads {S A} (f : S → A) : M S A := λ s, (Ok (f s), s).
Definition modify {S} (f : S → S) : M S unit := λ s, (Ok tt, f s).

(** The messages, as written in the source. *)
Definition msg_cannot_place : string :=
  "Cannot place object at the given coordinate.".
Definition msg_out_of_bounds : string :=
  "Coordinate is out of bounds.".
Definition msg_no_entity : string :=
  "No entity at the given coordinate.".
Definition msg_not_adjacent : string :=
  "New coordinate is not adjacent to the entity's current coordinate.".
Definition msg_not_available : string :=
  "New coordinate is not available.".

(** The error kinds of the specification, in terms of the raised values. *)
Definition PlacementError (e : exception) : Prop :=
  e = ValueError msg_cannot_place ∨ e = ValueError msg_not_available.
Definition OutOfBoundsError (e : exception) : Prop :=
  e = ValueError msg_out_of_bounds.
Definition EmptyCellError (e : exception) : Prop :=
  e = ValueError msg_no_entity.
Definition NotAdjacentError (e : exception) : Prop :=
  e = ValueError msg_not_adjacent.

(** ** Python loops *)

(** [range(n)] and [range(a, b)]. *)
Definition range (n : Z) : list Z := seqZ 0 n.
Definition range_from (a b : Z) : list Z := seqZ a (b - a).

(** [for a in l: body] *)
Fixpoint for_each {A S : Type} (l : list A) (body : A → M S unit) : M S unit :=
  match l with
  | [] => mret tt
  | a :: l' => _ ← body a; for_each l' body
  end.

(** The state a loop leaves when its body only updates the state. *)
Definition for_loop {A S : Type} (l : list A) (body : A → S → S) (s : S) : S :=
  foldl (λ s a, body a s) s l.

(** ** Python lists and strings *)

(** [l[i]] for a list of length [n]: the position that the index [i]
    denotes.  A negative index counts from the end; [None] stands for
    [IndexError]. *)
Definition index (n : nat) (i : Z) : option nat :=
  if bool_decide (0 ≤ i < Z.of_nat n) then Some (Z.to_nat i)
  else if bool_decide (- Z.of_nat n ≤ i < 0) then Some (Z.to_nat (i + Z.of_nat n))
  else None.

(** [for a in l: body] where the body may raise [IndexError] ([None]). *)
Fixpoint for_each_index {A S : Type} (l : list A) (body : A → S → option S)
    (s : S) : option S :=
  match l with
  | [] => Some s
  | a :: l' => s' ← body a s; for_each_index l' body s'
  end.

(** [s * n] and [[s] * n]: no copy at all when [n] is not positive. *)
Definition str_times (s : string) (n : Z) : string :=
  String.concat "" (replicate (Z.to_nat n) s).
Definition list_times {A : Type} (a : A) (n : Z) : list A :=
  replicate (Z.to_nat n) a.

(** The newline character, and the string of one character. *)
Definition newline : string := String "010" EmptyString.
Definition str_of (letter : ascii) : string := String letter EmptyString.

(** ** Coordinate *)

Module Coordinate.

(** [Coordinate(x, y)] with its getters.  Python integers are unbounded. *)
Record t : Type := Coordinate { get_x : Z; get_y : Z }.

#[global] Instance eq_dec : EqDecision t.
Proof. solve_decision. Defined.

#[global] Instance countable : Countable t.
Proof.
  apply (inj_countable' (λ c, (get_x c, get_y c)) (λ p, Coordinate p.1 p.2)).
  by intros [].
Defined.

(** Modelled from the spec: [util/coordinate.py] is not among the sources.
    "[+] combines elementwise with a scalar"; [check_placement] also
    subtracts a scalar, taken elementwise as well. *)
Definition add (c : t) (n : Z) : t := Coordinate (get_x c + n) (get_y c + n).
Definition sub (c : t) (n : Z) : t := Coordinate (get_x c - n) (get_y c - n).

(** Modelled from the spec: [util/coordinate.py] is not among the sources.
    "[is_adjacent] is true iff Chebyshev distance equals 1 (one of 8
    surrounding cells, diagonals included)". *)
Definition chebyshev (a b : t) : Z :=
  Z.max (Z.abs (get_x a - get_x b)) (Z.abs (get_y a - get_y b)).
Definition is_adjacent (a b : t) : bool := chebyshev a b =? 1.

(** The comparison [<=] of the class is a parameter of the operations of
    the map: [util/coordinate.py] is not among the sources.  The
    componentwise comparison makes the tests of [check_placement] and
    [remove] box tests; it is not a total order. *)
Definition le_pointwise (a b : t) : bool :=
  (get_x a <=? get_x b) && (get_y a <=? get_y b).

(** Modelled from the spec: [util/coordinate.py] is not among the sources.
    "a total order (row-major-style comparison)", "total order defined
    lexicographically or by the source's chosen comparison": the
    lexicographic order on [(x, y)]. *)
Definition le_lex (a b : t) : bool :=
  (get_x a <? get_x b) || ((get_x a =? get_x b) && (get_y a <=? get_y b)).

Definition pointwise (le : t → t → bool) : Prop :=
  ∀ a b, le a b = le_pointwise a b.

End Coordinate.

Abbreviation Coordinate := Coordinate.Coordinate.
Abbreviation get_x := Coordinate.get_x.
Abbreviation get_y := Coordinate.get_y.

(** [coordinate.m(...)] where [coordinate] may be [None]. *)
Definition deref {S} (coordinate : option Coordinate.t) : M S Coordinate.t :=
  match coordinate with
  | Some c => mret c
  | None => raise AttributeError
  end.

(** ** GameObject *)

Module GameObject.

(** What the map reads of a game object: its size (the side of the square
    it occupies), the coordinate it records for itself ([None] while it has
    none) and its letter.  [id] stands for the identity of the Python
    object.  The map never writes to a game object. *)
Record t : Type := GameObject {
  id : nat;
  get_size : Z;
  get_coordinate : option Coordinate.t;
  get_letter : ascii
}.

#[global] Instance eq_dec : EqDecision t.
Proof. solve_decision. Defined.

End GameObject.

(** ** Map *)

Module Map.

(** The state of an instance.  The [defaultdict(lambda: None)] is read only
    through [__getitem__], which answers [None] for a missing key as for a
    key bound to [None]: it is modelled by the finite map of its
    non-[None] bindings.  [get_map], which hands out the dictionary
    itself, its keys bound to [None] included, is left out for this
    reason. *)
Record t : Type := Map {
  __size : Z;
  __matrix : gmap Coordinate.t GameObject.t
}.

(** [Map(size)] *)
Definition __init__ (size : Z) : t := Map size ∅.

Definition get_size (self : t) : Z := __size self.

Definition get (self : t) (coordinate : Coordinate.t) : option GameObject.t :=
  __matrix self !! coordinate.

(** [self.__matrix[key] = value] *)
Definition setitem (key : Coordinate.t) (value : option GameObject.t)
    (self : t) : t :=
  match value with
  | Some object => Map (__size self) (<[key := object]> (__matrix self))
  | None => Map (__size self) (delete key (__matrix self))
  end.
#[global] Arguments setitem : simpl never.

Section Operations.

(** [Coordinate.__le__] *)
Variable le : Coordinate.t → Coordinate.t → bool.

Definition check_placement (self : t) (object : GameObject.t)
    (coordinate : option Coordinate.t) : bool :=
  forallb (λ x,
    forallb (λ y,
      match coordinate with
      | None => false
      | Some c =>
        if negb (le (Coordinate 0 0) c
                 && le (Coordinate.sub
                          (Coordinate.add c (GameObject.get_size object)) 1)
                       (Coordinate (get_size self - 1) (get_size self - 1)))
        then false
        else if bool_decide
                  (get self (Coordinate (get_x c + x) (get_y c + y)) ≠ None)
        then false
        else true
      end)
      (range (GameObject.get_size object)))
    (range (GameObject.get_size object)).

Definition add (object : GameObject.t) (coordinate : option Coordinate.t)
  : M t unit :=
  placeable ← reads (λ self, check_placement self object coordinate);
  if negb placeable
  then raise (ValueError msg_cannot_place)
  else
    for_each (range (GameObject.get_size object)) (λ x,
      for_each (range (GameObject.get_size object)) (λ y,
        c ← deref coordinate;
        modify (setitem (Coordinate (get_x c + x) (get_y c + y))
                        (Some object)))).

Definition __force_add (object : GameObject.t) (coordinate : Coordinate.t)
  : M t unit :=
  modify (setitem coordinate (Some object)).

Definition remove (coordinate : Coordinate.t) : M t GameObject.t :=
  size ← reads get_size;
  if negb (le (Coordinate 0 0) coordinate
           && le coordinate (Coordinate size size))
  then raise (ValueError msg_out_of_bounds)
  else
    found ← reads (λ self, get self coordinate);
    match found with
    | None => raise (ValueError msg_no_entity)
    | Some object =>
      _ ← for_each (range (GameObject.get_size object)) (λ x,
            for_each (range (GameObject.get_size object)) (λ y,
              modify (setitem
                        (Coordinate (get_x coordinate + x)
                                    (get_y coordinate + y))
                        None)));
      mret object
    end.

Definition __force_remove (coordinate : Coordinate.t)
  : M t (option GameObject.t) :=
  object ← reads (λ self, get self coordinate);
  _ ← modify (setitem coordinate None);
  mret object.

Definition move (object : GameObject.t) (new_coordinate : Coordinate.t)
  : M t unit :=
  current ← deref (GameObject.get_coordinate object);
  if negb (Coordinate.is_adjacent current new_coordinate)
  then raise (ValueError msg_not_adjacent)
  else
    placeable ← reads (λ self,
                         check_placement self object (Some new_coordinate));
    if negb placeable
    then raise (ValueError msg_not_available)
    else
      current ← deref (GameObject.get_coordinate object);
      _ ← remove current;
      add object (Some new_coordinate).

End Operations.

(** The loops run on the new map; [self] is only read. *)
Definition get_from_to (self : t) (from_coord to_coord : Coordinate.t) : t :=
  let new_size :=
    Z.max (get_x to_coord - get_x from_coord)
          (get_y to_coord - get_y from_coord) in
  let new_map := __init__ new_size in
  (for_each (range_from (get_x from_coord) (get_x to_coord + 1)) (λ x,
     for_each (range_from (get_y from_coord) (get_y to_coord + 1)) (λ y,
       match get self (Coordinate x y) with
       | Some obj =>
         __force_add obj
           (Coordinate (x - get_x from_coord) (y - get_y from_coord))
       | None => mret tt
       end)) new_map).2.

(** The body of [path_finding] is its docstring: the call returns [None]. *)
Definition path_finding (start end_ : Coordinate.t)
  : M t (option (list Coordinate.t)) :=
  mret None.

(** [__force_move]: one cell is vacated, the one of the coordinate that the
  object records, and one cell is written.  When the object records no
  coordinate the dictionary is read and written under the key [None],
  which no coordinate reads. *)
Definition __force_move (object : GameObject.t) (new_coordinate : Coordinate.t)
: M t unit :=
_ ← match GameObject.get_coordinate object with
    | Some current => __force_remove current
    | None => mret None
    end;
__force_add object new_coordinate.

(** [get_map_list]: the comprehension over [i], then [j]. *)
Definition get_map_list (self : t) : list (list (option GameObject.t)) :=
(λ i, (λ j, get self (Coordinate i j)) <$> range (get_size self))
  <$> range (get_size self).

(** [get_map_from_to]: the loops run on the new dictionary, modelled as the
  dictionary of a map is. *)
Definition get_map_from_to (self : t) (from_coord to_coord : Coordinate.t)
: gmap Coordinate.t GameObject.t :=
(for_each (range_from (get_x from_coord) (get_x to_coord + 1)) (λ x,
   for_each (range_from (get_y from_coord) (get_y to_coord + 1)) (λ y,
     match get self (Coordinate x y) with
     | Some obj => modify (insert (Coordinate x y) obj)
     | None => mret tt
     end)) ∅).2.

(** [result[x][y] = value] on a list of lists. *)
Definition setitem2 (x y : Z) (value : option GameObject.t)
  (result : list (list (option GameObject.t)))
: option (list (list (option GameObject.t))) :=
i ← index (length result) x;
row ← result !! i;
j ← index (length row) y;
Some (<[i := <[j := value]> row]> result).

(** [get_map_list_from_to]: [None] stands for [IndexError]. *)
Definition get_map_list_from_to (self : t) (from_coord to_coord : Coordinate.t)
: option (list (list (option GameObject.t))) :=
let size := get_size self in
let result := (λ _, (λ _, None) <$> range size) <$> range size in
for_each_index (range_from (get_x from_coord) (get_x to_coord + 1)) (λ x,
  for_each_index (range_from (get_y from_coord) (get_y to_coord + 1))
    (λ y result,
       setitem2 x y (get self (Coordinate x y)) result))
  result.

(** The three lambdas of [tabler_str]. *)
Definition horizontal_line (length : Z) : string :=
"┌" +:+ String.concat "┬" (list_times (str_times "─" 3) length) +:+ "┐".
Definition middle_line (length : Z) : string :=
"├" +:+ String.concat "┼" (list_times (str_times "─" 3) length) +:+ "┤".
Definition bottom_line (length : Z) : string :=
"└" +:+ String.concat "┴" (list_times (str_times "─" 3) length) +:+ "┘".

(** The text of a cell in [tabler_str]: the letter, or a space, between two
  spaces. *)
Definition tabler_cell (self : t) (x y : Z) : string :=
" " +:+ match get self (Coordinate x y) with
        | Some object => str_of (GameObject.get_letter object)
        | None => " "
        end +:+ " ".

(** [tabler_str].  The state of the loops is [rows] and the variable [x],
  which the inner loop binds and the test after it reads; [None] stands
  for the [NameError] of reading [x] unbound. *)
Definition tabler_str (self : t) : option string :=
let rows := [horizontal_line (get_size self)] in
'(rows, _) ←
  for_each_index (range (get_size self)) (λ y '(rows, x),
    let '(row, x) :=
      for_loop (range (get_size self))
        (λ x '(row, _), (row ++ [tabler_cell self x y], Some x))
        ([], x) in
    let rows := rows ++ ["│" +:+ String.concat "│" row +:+ "│"] in
    x_read ← x;
    let rows :=
      if bool_decide (x_read < get_size self - 1)
      then rows ++ [middle_line (get_size self)]
      else rows in
    Some (rows, x))
    (rows, None);
let rows := rows ++ [bottom_line (get_size self)] in
Some (String.concat newline rows).

End Map.

(** ** Instances and their dictionaries

    [capture] makes a second instance; whether the two share a dictionary is
    the point of it, so here the dictionaries live in a heap and an instance
    holds the location of its own. *)

Module Heap.

Definition loc : Type := nat.

Record instance : Type := Instance {
  size : Z;
  matrix : loc
}.

(** What an instance looks like in a heap. *)
Definition state (h : gmap loc (gmap Coordinate.t GameObject.t))
    (self : instance) : option Map.t :=
  Map.Map (size self) <$> h !! matrix self.

(** A method call on an instance: the method runs on the dictionary the
    instance refers to, and its writes land there.  An instance always
    refers to a dictionary; the last case is never met. *)
Definition call {A} (self : instance) (method : M Map.t A)
  : M (gmap loc (gmap Coordinate.t GameObject.t)) A := λ h,
  match state h self with
  | Some m =>
    let '(r, m') := method m in
    (r, <[matrix self := Map.__matrix m']> h)
  | None => (Raise AttributeError, h)
  end.

Definition get (h : gmap loc (gmap Coordinate.t GameObject.t))
    (self : instance) (coordinate : Coordinate.t) : option GameObject.t :=
  m ← state h self; Map.get m coordinate.

(** [Map(size)]: a new instance with a new, empty dictionary. *)
Definition __init__ (size : Z)
  : M (gmap loc (gmap Coordinate.t GameObject.t)) instance := λ h,
  let l := fresh (dom h) in
  (Ok (Instance size l), <[l := ∅]> h).

(** [dict.copy()]: a new dictionary with the bindings of the old one. *)
Definition copy (l : loc)
  : M (gmap loc (gmap Coordinate.t GameObject.t)) loc := λ h,
  match h !! l with
  | Some d => let l' := fresh (dom h) in (Ok l', <[l' := d]> h)
  | None => (Raise AttributeError, h)
  end.

Definition capture (self : instance)
  : M (gmap loc (gmap Coordinate.t GameObject.t)) instance :=
  new_map ← __init__ (size self);
  copied ← copy (matrix self);
  mret (Instance (size new_map) copied).

End Heap.

(** ** Sequences of operations *)

Inductive operation : Type :=
| Add (object : GameObject.t) (coordinate : option Coordinate.t)
| Remove (coordinate : Coordinate.t)
| Move (object : GameObject.t) (new_coordinate : Coordinate.t).

Definition perform (le : Coordinate.t → Coordinate.t → bool) (p : operation)
  : M Map.t unit :=
  match p with
  | Add object coordinate => Map.add le object coordinate
  | Remove coordinate => _ ← Map.remove le coordinate; mret tt
  | Move object new_coordinate => Map.move le object new_coordinate
  end.

(** The states reached from the empty grid by operations that all succeed. *)
Inductive reachable (le : Coordinate.t → Coordinate.t → bool) (size : Z)
  : Map.t → Prop :=
| reachable_init : reachable le size (Map.__init__ size)
| reachable_step m p m' :
    reachable le size m → perform le p m = (Ok tt, m') → reachable le size m'.

(** The operations run one after the other on an instance, an operation
    that raises being given up (its exception caught). *)
Definition perform_all (le : Coordinate.t → Coordinate.t → bool)
    (self : Heap.instance) (ps : list operation)
    (h : gmap Heap.loc (gmap Coordinate.t GameObject.t))
  : gmap Heap.loc (gmap Coordinate.t GameObject.t) :=
  foldl (λ h p, (Heap.call self (perform le p) h).2) h ps.

(** ** Vocabulary of the statements *)

(** The cells of the [k]-by-[k] block anchored at [a]. *)
Definition in_block (a : Coordinate.t) (k : Z) (c : Coordinate.t) : Prop :=
  (get_x a ≤ get_x c < get_x a + k) ∧ (get_y a ≤ get_y c < get_y a + k).

#[global] Instance in_block_dec a k c : Decision (in_block a k c).
Proof. unfold in_block. apply _. Defined.

(** The same block for a coordinate that may be [None]: no cell then. *)
Definition in_block_at (a : option Coordinate.t) (k : Z) (c : Coordinate.t)
  : Prop :=
  match a with
  | Some a => in_block a k c
  | None => False
  end.

#[global] Instance in_block_at_dec a k c : Decision (in_block_at a k c).
Proof. destruct a; apply _. Defined.

(** The cells of the grid: [[0, size-1] x [0, size-1]]. *)
Definition in_bounds (self : Map.t) (c : Coordinate.t) : Prop :=
  (0 ≤ get_x c ≤ Map.get_size self - 1) ∧ (0 ≤ get_y c ≤ Map.get_size self - 1).

#[global] Instance in_bounds_dec self c : Decision (in_bounds self c).
Proof. unfold in_bounds. apply _. Defined.

(** The cells of the rectangle from [a] to [b], both included. *)
Definition in_rectangle (a b c : Coordinate.t) : Prop :=
  (get_x a ≤ get_x c ≤ get_x b) ∧ (get_y a ≤ get_y c ≤ get_y b).

#[global] Instance in_rectangle_dec a b c : Decision (in_rectangle a b c).
Proof. unfold in_rectangle. apply _. Defined.

(** The tests that [check_placement] and [remove] make on a coordinate, for
    a comparison [le] of coordinates. *)
Definition box_test (le : Coordinate.t → Coordinate.t → bool)
    (m : Map.t) (o : GameObject.t) (c : Coordinate.t) : bool :=
  le (Coordinate 0 0) c
  && le (Coordinate.sub (Coordinate.add c (GameObject.get_size o)) 1)
        (Coordinate (Map.get_size m - 1) (Map.get_size m - 1)).

Definition remove_test (le : Coordinate.t → Coordinate.t → bool)
    (m : Map.t) (c : Coordinate.t) : bool :=
  le (Coordinate 0 0) c
  && le c (Coordinate (Map.get_size m) (Map.get_size m)).

(** A comparison under which an anchor that passes the test of
    [check_placement], for a block that has a cell, passes the test of
    [remove]. *)
Definition tests_agree (le : Coordinate.t → Coordinate.t → bool) : Prop :=
  ∀ m o c, 0 < GameObject.get_size o →
    box_test le m o c = true → remove_test le m c = true.

(** In [get_from_to]: the cell of [self] that is copied to the cell [c] of
    the new map, and one turn of the inner loop as an update of the new map. *)
Definition source (from_coord c : Coordinate.t) : Coordinate.t :=
  Coordinate (get_x c + get_x from_coord) (get_y c + get_y from_coord).

Definition copy_cell (self : Map.t) (from_coord : Coordinate.t) (x y : Z)
    (new_map : Map.t) : Map.t :=
  match Map.get self (Coordinate x y) with
  | Some obj =>
    Map.setitem (Coordinate (x - get_x from_coord) (y - get_y from_coord))
      (Some obj) new_map
  | None => new_map
  end.

(** Every cell that holds an object is a cell of the grid. *)
Definition bounded (m : Map.t) : Prop :=
  ∀ c o, Map.get m c = Some o → in_bounds m c.

(** The closed square [[0, size] x [0, size]] that [remove] accepts. *)
Definition in_remove_range (m : Map.t) (c : Coordinate.t) : Prop :=
  (0 ≤ get_x c ≤ Map.get_size m) ∧ (0 ≤ get_y c ≤ Map.get_size m).

(** In [get_map_from_to]: one turn of the inner loop as an update of the
    new dictionary. *)
Definition keep_cell (self : Map.t) (x y : Z)
    (result : gmap Coordinate.t GameObject.t) : gmap Coordinate.t GameObject.t :=
  match Map.get self (Coordinate x y) with
  | Some obj => <[Coordinate x y := obj]> result
  | None => result
  end.

(** [grid[i][j]] for positions [i] and [j] of a list of lists; and the lists
    of [n] lists of length [n]. *)
Definition entry (grid : list (list (option GameObject.t))) (i j : nat)
  : option (option GameObject.t) :=
  row ← grid !! i; row !! j.

Definition square (n : nat) (grid : list (list (option GameObject.t))) : Prop :=
  length grid = n ∧ Forall (λ row, length row = n) grid.

(** A line of cells of [tabler_str]. *)
Definition tabler_row (self : Map.t) (y : Z) : string :=
  "│" +:+ String.concat "│"
            ((λ x, Map.tabler_cell self x y) <$> range (Map.get_size self))
      +:+ "│".

(** An object is placed when it records a coordinate and every cell of the
    block anchored there holds it. *)
Definition placed (m : Map.t) (o : GameObject.t) : Prop :=
  ∃ a, GameObject.get_coordinate o = Some a
       ∧ ∀ c, in_block a (GameObject.get_size o) c → Map.get m c = Some o.

(** No partial block: a cell that holds an object lies in a block of the
    size of the object, every cell of which holds that object. *)
Definition whole_blocks (m : Map.t) : Prop :=
  ∀ c o, Map.get m c = Some o →
    ∃ a, in_block a (GameObject.get_size o) c
         ∧ ∀ c', in_block a (GameObject.get_size o) c' → Map.get m c' = Some o.

(** The anchors of a grid: [P] maps the anchor of every block to the object
    of the block. *)
Record anchors_of (m : Map.t) (P : gmap Coordinate.t GameObject.t) : Prop := {
  anchors_full : ∀ a o, P !! a = Some o →
    0 < GameObject.get_size o
    ∧ ∀ c, in_block a (GameObject.get_size o) c → Map.get m c = Some o;
  anchors_cover : ∀ c o, Map.get m c = Some o →
    ∃ a, P !! a = Some o ∧ in_block a (GameObject.get_size o) c;
  anchors_apart : ∀ a1 o1 a2 o2 c,
    P !! a1 = Some o1 → P !! a2 = Some o2 →
    in_block a1 (GameObject.get_size o1) c →
    in_block a2 (GameObject.get_size o2) c → a1 = a2
}.

(** The anchor that a successful [add] creates, if the block has a cell. *)
Definition record_anchor (o : GameObject.t) (c : option Coordinate.t)
    (P : gmap Coordinate.t GameObject.t) : gmap Coordinate.t GameObject.t :=
  match c with
  | Some a => if decide (0 < GameObject.get_size o) then <[a := o]> P else P
  | None => P
  end.

(** The states reached from the empty grid by operations that all succeed,
    where [remove] is called on anchors only: by the caller, and by [move]
    on the coordinate that the moved object records. *)
Inductive reachable_by_anchors (le : Coordinate.t → Coordinate.t → bool)
    (size : Z) : Map.t → gmap Coordinate.t GameObject.t → Prop :=
| by_anchors_init : reachable_by_anchors le size (Map.__init__ size) ∅
| by_anchors_add m P o c m' :
    reachable_by_anchors le size m P →
    Map.add le o c m = (Ok tt, m') →
    reachable_by_anchors le size m' (record_anchor o c P)
| by_anchors_remove m P a o m' :
    reachable_by_anchors le size m P →
    is_Some (P !! a) →
    Map.remove le a m = (Ok o, m') →
    reachable_by_anchors le size m' (delete a P)
| by_anchors_move m P o a n m' :
    reachable_by_anchors le size m P →
    GameObject.get_coordinate o = Some a →
    is_Some (P !! a) →
    Map.move le o n m = (Ok tt, m') →
    reachable_by_anchors le size m' (record_anchor o (Some n) (delete a P)).

(** ** The scenarios of the specification *)

Module Scenario.

(** A unit of size 1 recorded at (2,2) and a building of size 2 recorded
    at (0,0). *)
Definition U : GameObject.t :=
  GameObject.GameObject 1 1 (Some (Coordinate 2 2)) "U".
Definition B : GameObject.t :=
  GameObject.GameObject 2 2 (Some (Coordinate 0 0)) "B".

(** The grid of size 5 holding [U] at (2,2). *)
Definition grid5 : Map.t := Map.Map 5 {[ Coordinate 2 2 := U ]}.

(** The grid of size 4 holding [B] on the block anchored at (0,0). *)
Definition grid4 : Map.t :=
  Map.Map 4 (<[Coordinate 0 0 := B]> (<[Coordinate 0 1 := B]>
             (<[Coordinate 1 0 := B]> {[ Coordinate 1 1 := B ]}))).

(** A unit of size 1 that is on no grid and records (1,1). *)
Definition stray : GameObject.t :=
  GameObject.GameObject 3 1 (Some (Coordinate 1 1)) "S".

(** An object of size 0 that records no coordinate. *)
Definition ghost : GameObject.t := GameObject.GameObject 4 0 None "G".

(** [grid4] after [remove(Coordinate(1, 1))]. *)
Definition grid4_torn : Map.t :=
  Map.Map 4 (<[Coordinate 0 0 := B]> (<[Coordinate 0 1 := B]>
             {[ Coordinate 1 0 := B ]})).

(** A heap with one instance, of size 5, whose dictionary is that of
    [grid5]; and a second instance that shares the dictionary. *)
Definition heap5 : gmap Heap.loc (gmap Coordinate.t GameObject.t) :=
  {[ 0%nat := Map.__matrix grid5 ]}.
Definition original : Heap.instance := Heap.Instance 5 0%nat.
Definition alias : Heap.instance := Heap.Instance 5 0%nat.

End Scenario.

(** * Properties *)

(** ** Loops *)

Lemma elem_of_range (n k : Z) : k ∈ range n ↔ 0 ≤ k < n.
Proof. unfold range. rewrite elem_of_seqZ. lia. Qed.

Lemma elem_of_range_from (a b k : Z) : k ∈ range_from a b ↔ a ≤ k < b.
Proof. unfold range_from. rewrite elem_of_seqZ. lia. Qed.

Lemma forallb_elem_of {A} (f : A → bool) (l : list A) :
  forallb f l = true ↔ ∀ a, a ∈ l → f a = true.
Proof.
  rewrite forallb_forall. by setoid_rewrite list_elem_of_In.
Qed.

Lemma for_each_cons {A S} (a : A) (l : list A) (body : A → M S unit) (s : S) :
  for_each (a :: l) body s
  = match body a s with
    | (Ok _, s') => for_each l body s'
    | (Raise e, s') => (Raise e, s')
    end.
Proof. done. Qed.

Lemma for_each_ext {A S} (l : list A) (f g : A → M S unit) (s : S) :
  (∀ a s, a ∈ l → f a s = g a s) → for_each l f s = for_each l g s.
Proof.
  revert s. induction l as [|a l IH]; intros s Hfg; [done|].
  rewrite !for_each_cons, Hfg by apply list_elem_of_here.
  destruct (g a s) as [[[]|e] s']; [|done].
  apply IH. intros b s'' Hb. apply Hfg. by apply list_elem_of_further.
Qed.

Lemma for_each_modify {A S} (l : list A) (f : A → S → S) (s : S) :
  for_each l (λ a, modify (f a)) s = (Ok tt, for_loop l f s).
Proof.
  unfold for_loop. revert s. induction l as [|a l IH]; intros s; [done|].
  rewrite for_each_cons. apply IH.
Qed.

Lemma for_each_nested_modify {A B S} (xs : list A) (ys : list B)
    (f : A → B → S → S) (s : S) :
  for_each xs (λ x, for_each ys (λ y, modify (f x y))) s
  = (Ok tt, for_loop xs (λ x, for_loop ys (f x)) s).
Proof.
  rewrite <- for_each_modify. apply for_each_ext. intros x s' _.
  apply for_each_modify.
Qed.

(** ** Reading after writing *)

Lemma get_setitem (m : Map.t) (k c : Coordinate.t) (v : option GameObject.t) :
  Map.get (Map.setitem k v m) c = if decide (k = c) then v else Map.get m c.
Proof.
  unfold Map.get, Map.setitem. destruct v as [o|]; simpl.
  - rewrite lookup_insert. by destruct (decide (k = c)).
  - rewrite lookup_delete. by destruct (decide (k = c)).
Qed.

Lemma size_setitem (m : Map.t) (k : Coordinate.t) (v : option GameObject.t) :
  Map.get_size (Map.setitem k v m) = Map.get_size m.
Proof. by destruct v. Qed.

Lemma map_ext (m1 m2 : Map.t) :
  Map.get_size m1 = Map.get_size m2 →
  (∀ c, Map.get m1 c = Map.get m2 c) → m1 = m2.
Proof.
  destruct m1 as [s1 d1], m2 as [s2 d2]. unfold Map.get, Map.get_size. simpl.
  intros -> Hget. f_equal. by apply map_eq.
Qed.

Section WriteBlock.

Variable v : option GameObject.t.
Variable a : Coordinate.t.

Lemma get_write_row (x : Z) (ys : list Z) (m : Map.t) (c : Coordinate.t) :
  Map.get (for_loop ys (λ y, Map.setitem (Coordinate (get_x a + x) (get_y a + y)) v) m) c
  = if decide (get_x c = get_x a + x ∧ get_y c - get_y a ∈ ys)
    then v else Map.get m c.
Proof.
  unfold for_loop. revert m.
  induction ys as [|y ys IH]; intros m; cbn [foldl].
  - rewrite decide_False; [done|]. intros [_ H]. by apply elem_of_nil in H.
  - rewrite IH, get_setitem.
    destruct (decide (get_x c = get_x a + x ∧ get_y c - get_y a ∈ ys))
      as [[Hx Hy]|Hn1].
    + rewrite decide_True; [done|]. split; [done|]. by apply list_elem_of_further.
    + destruct (decide (Coordinate (get_x a + x) (get_y a + y) = c)) as [<-|Hn2].
      * rewrite decide_True; [done|]. simpl. split; [done|].
        replace (get_y a + y - get_y a) with y by lia. apply list_elem_of_here.
      * rewrite decide_False; [done|]. intros [Hx Hy].
        apply elem_of_cons in Hy as [Hy|Hy]; [|by apply Hn1].
        apply Hn2. destruct c as [cx cy]. simpl in *. f_equal; lia.
Qed.

Lemma size_write_row (x : Z) (ys : list Z) (m : Map.t) :
  Map.get_size (for_loop ys (λ y, Map.setitem (Coordinate (get_x a + x) (get_y a + y)) v) m)
  = Map.get_size m.
Proof.
  unfold for_loop. revert m. induction ys as [|y ys IH]; intros m; simpl; [done|].
  by rewrite IH, size_setitem.
Qed.

Lemma get_write_block (xs ys : list Z) (m : Map.t) (c : Coordinate.t) :
  Map.get (for_loop xs (λ x, for_loop ys (λ y, Map.setitem (Coordinate (get_x a + x) (get_y a + y)) v)) m) c
  = if decide (get_x c - get_x a ∈ xs ∧ get_y c - get_y a ∈ ys)
    then v else Map.get m c.
Proof.
  unfold for_loop at 1. revert m.
  induction xs as [|x xs IH]; intros m; cbn [foldl].
  - rewrite decide_False; [done|]. intros [H _]. by apply elem_of_nil in H.
  - rewrite IH, get_write_row.
    destruct (decide (get_x c - get_x a ∈ xs ∧ get_y c - get_y a ∈ ys))
      as [[Hx Hy]|Hn1].
    + rewrite decide_True; [done|]. split; [|done]. by apply list_elem_of_further.
    + destruct (decide (get_x c = get_x a + x ∧ get_y c - get_y a ∈ ys))
        as [[Hx Hy]|Hn2].
      * rewrite decide_True; [done|]. split; [|done].
        replace (get_x c - get_x a) with x by lia. apply list_elem_of_here.
      * rewrite decide_False; [done|]. intros [Hx Hy].
        apply elem_of_cons in Hx as [Hx|Hx]; [|by apply Hn1].
        apply Hn2. split; [lia|done].
Qed.

Lemma size_write_block (xs ys : list Z) (m : Map.t) :
  Map.get_size
    (for_loop xs (λ x, for_loop ys (λ y, Map.setitem (Coordinate (get_x a + x) (get_y a + y)) v)) m)
  = Map.get_size m.
Proof.
  unfold for_loop at 1. revert m. induction xs as [|x xs IH]; intros m; simpl; [done|].
  by rewrite IH, size_write_row.
Qed.

End WriteBlock.

Lemma in_block_range (a c : Coordinate.t) (k : Z) :
  in_block a k c ↔ get_x c - get_x a ∈ range k ∧ get_y c - get_y a ∈ range k.
Proof. unfold in_block. rewrite !elem_of_range. lia. Qed.

Lemma in_block_offset (a : Coordinate.t) (k x y : Z) :
  0 ≤ x < k → 0 ≤ y < k → in_block a k (Coordinate (get_x a + x) (get_y a + y)).
Proof. unfold in_block. simpl. lia. Qed.

Lemma in_block_anchor (a : Coordinate.t) (k : Z) : 0 < k → in_block a k a.
Proof. unfold in_block. lia. Qed.

(** The two loops of [add] and [remove]: every cell of the block receives
    [v], the others keep what they hold. *)
Lemma run_write_block (v : option GameObject.t) (a : Coordinate.t) (k : Z)
    (m : Map.t) :
  ∃ m',
    for_each (range k) (λ x, for_each (range k) (λ y,
      modify (Map.setitem (Coordinate (get_x a + x) (get_y a + y)) v))) m
    = (Ok tt, m')
    ∧ Map.get_size m' = Map.get_size m
    ∧ ∀ c, Map.get m' c = if decide (in_block a k c) then v else Map.get m c.
Proof.
  rewrite for_each_nested_modify. eexists. split; [done|].
  split; [apply size_write_block|]. intros c.
  rewrite (get_write_block v a). apply decide_ext. symmetry. apply in_block_range.
Qed.

(** ** check_placement and add *)

Section Placement.

Variable le : Coordinate.t → Coordinate.t → bool.

(** The loops of [check_placement], read as a statement: whatever the
    comparison of coordinates is. *)
Lemma check_placement_true (m : Map.t) (o : GameObject.t)
    (c : option Coordinate.t) :
  Map.check_placement le m o c = true ↔
  ∀ x y, 0 ≤ x < GameObject.get_size o → 0 ≤ y < GameObject.get_size o →
    ∃ c0, c = Some c0 ∧ box_test le m o c0 = true
          ∧ Map.get m (Coordinate (get_x c0 + x) (get_y c0 + y)) = None.
Proof.
  unfold Map.check_placement. rewrite forallb_elem_of.
  setoid_rewrite forallb_elem_of. setoid_rewrite elem_of_range.
  split; intros H x y Hx Hy; specialize (H x Hx y Hy).
  - destruct c as [c0|]; [|done]. exists c0. split; [done|].
    fold (box_test le m o c0) in H. destruct (box_test le m o c0); [|done].
    split; [done|]. simpl in H.
    destruct (Map.get m (Coordinate _ _)) as [g|] eqn:Hg; [|done].
    by rewrite bool_decide_true in H.
  - destruct H as (c0 & -> & Hbox & Hget). fold (box_test le m o c0).
    rewrite Hbox. simpl. rewrite Hget. by rewrite bool_decide_false by auto.
Qed.

Lemma check_placement_None (m : Map.t) (o : GameObject.t) :
  Map.check_placement le m o None = true ↔ GameObject.get_size o ≤ 0.
Proof.
  rewrite check_placement_true. split.
  - intros H. destruct (decide (GameObject.get_size o ≤ 0)) as [|Hk]; [done|].
    destruct (H 0 0) as (c0 & Hc & _); [lia..|done].
  - intros Hk x y Hx. lia.
Qed.

Lemma check_placement_block_free (m : Map.t) (o : GameObject.t)
    (a c : Coordinate.t) :
  Map.check_placement le m o (Some a) = true →
  in_block a (GameObject.get_size o) c → Map.get m c = None.
Proof.
  intros H [Hx Hy]. rewrite check_placement_true in H.
  destruct (H (get_x c - get_x a) (get_y c - get_y a))
    as (a' & [= <-] & _ & Hget); [lia..|].
  destruct c as [cx cy]. simpl in *.
  replace (get_x a + (cx - get_x a)) with cx in Hget by lia.
  by replace (get_y a + (cy - get_y a)) with cy in Hget by lia.
Qed.

(** Emptying cells keeps a placement possible. *)
Lemma check_placement_mono (m m' : Map.t) (o : GameObject.t)
    (c : option Coordinate.t) :
  Map.get_size m' = Map.get_size m →
  (∀ c', Map.get m c' = None → Map.get m' c' = None) →
  Map.check_placement le m o c = true →
  Map.check_placement le m' o c = true.
Proof.
  intros Hsize Hget. rewrite !check_placement_true. intros H x y Hx Hy.
  destruct (H x y Hx Hy) as (c0 & -> & Hbox & Hc0). exists c0.
  split; [done|]. split; [|by apply Hget].
  unfold box_test in *. by rewrite Hsize.
Qed.

(** What [add] leaves when the check passes. *)
Lemma add_checked (m : Map.t) (o : GameObject.t) (c : option Coordinate.t) :
  Map.check_placement le m o c = true →
  ∃ m', Map.add le o c m = (Ok tt, m')
        ∧ Map.get_size m' = Map.get_size m
        ∧ ∀ c', Map.get m' c'
                = if decide (in_block_at c (GameObject.get_size o) c')
                  then Some o else Map.get m c'.
Proof.
  intros Hcheck. unfold Map.add, mbind, M_bind, reads.
  rewrite Hcheck. cbn [negb].
  destruct c as [a|].
  - destruct (run_write_block (Some o) a (GameObject.get_size o) m)
      as (m' & Hrun & Hm').
    exists m'. split; [|done]. rewrite <- Hrun. apply for_each_ext.
    intros x s _. by apply for_each_ext.
  - apply check_placement_None in Hcheck.
    unfold range. rewrite seqZ_nil by done.
    exists m. split; [done|]. split; [done|]. intros c'.
    by destruct (decide (in_block_at None (GameObject.get_size o) c')) as [[]|].
Qed.

Lemma add_unchecked (m : Map.t) (o : GameObject.t) (c : option Coordinate.t) :
  Map.check_placement le m o c = false →
  Map.add le o c m = (Raise (ValueError msg_cannot_place), m).
Proof.
  intros Hcheck. unfold Map.add, mbind, M_bind, reads. by rewrite Hcheck.
Qed.

(** ** remove *)

Lemma remove_outside (m : Map.t) (c : Coordinate.t) :
  remove_test le m c = false →
  Map.remove le c m = (Raise (ValueError msg_out_of_bounds), m).
Proof.
  intros Htest. unfold Map.remove, mbind, M_bind, reads.
  fold (remove_test le m c). by rewrite Htest.
Qed.

Lemma remove_empty (m : Map.t) (c : Coordinate.t) :
  remove_test le m c = true → Map.get m c = None →
  Map.remove le c m = (Raise (ValueError msg_no_entity), m).
Proof.
  intros Htest Hget. unfold Map.remove, mbind, M_bind, reads.
  fold (remove_test le m c). rewrite Htest. cbn [negb]. by rewrite Hget.
Qed.

Lemma remove_occupied (m : Map.t) (c : Coordinate.t) (o : GameObject.t) :
  remove_test le m c = true → Map.get m c = Some o →
  ∃ m', Map.remove le c m = (Ok o, m')
        ∧ Map.get_size m' = Map.get_size m
        ∧ ∀ c', Map.get m' c'
                = if decide (in_block c (GameObject.get_size o) c')
                  then None else Map.get m c'.
Proof.
  intros Htest Hget. unfold Map.remove, mbind, M_bind, reads.
  fold (remove_test le m c). rewrite Htest. cbn [negb]. rewrite Hget.
  destruct (run_write_block None c (GameObject.get_size o) m)
    as (m' & Hrun & Hm').
  exists m'. split; [|done]. by rewrite Hrun.
Qed.

(** The three ways out of [remove]. *)
Lemma remove_cases (m : Map.t) (c : Coordinate.t) :
  (remove_test le m c = false
   ∧ Map.remove le c m = (Raise (ValueError msg_out_of_bounds), m))
  ∨ (remove_test le m c = true ∧ Map.get m c = None
     ∧ Map.remove le c m = (Raise (ValueError msg_no_entity), m))
  ∨ (∃ o m', remove_test le m c = true ∧ Map.get m c = Some o
       ∧ Map.remove le c m = (Ok o, m')
       ∧ Map.get_size m' = Map.get_size m
       ∧ ∀ c', Map.get m' c'
               = if decide (in_block c (GameObject.get_size o) c')
                 then None else Map.get m c').
Proof.
  destruct (remove_test le m c) eqn:Htest.
  - destruct (Map.get m c) as [o|] eqn:Hget.
    + right. right.
      destruct (remove_occupied m c o Htest Hget) as (m' & ? & ? & ?).
      by exists o, m'.
    + right. left. by rewrite remove_empty.
  - left. by rewrite remove_outside.
Qed.

(** ** move *)

(** [move], one step after the other. *)
Lemma move_unfold (m : Map.t) (o : GameObject.t) (n : Coordinate.t) :
  Map.move le o n m
  = match GameObject.get_coordinate o with
    | None => (Raise AttributeError, m)
    | Some a =>
      if negb (Coordinate.is_adjacent a n)
      then (Raise (ValueError msg_not_adjacent), m)
      else if negb (Map.check_placement le m o (Some n))
      then (Raise (ValueError msg_not_available), m)
      else
        match Map.remove le a m with
        | (Ok _, m1) => Map.add le o (Some n) m1
        | (Raise e, m1) => (Raise e, m1)
        end
    end.
Proof.
  unfold Map.move. destruct (GameObject.get_coordinate o) as [a|]; [|done].
  cbn [deref]. unfold mbind at 1, M_bind at 1, mret, M_ret.
  destruct (Coordinate.is_adjacent a n); [|done]. cbn [negb].
  unfold mbind at 1, M_bind at 1, reads.
  by destruct (Map.check_placement le m o (Some n)).
Qed.

(** A successful [move] is a successful [remove] at the recorded coordinate
    followed by a successful [add]; a [move] that raises leaves the grid
    as it was. *)
Lemma move_cases (m : Map.t) (o : GameObject.t) (n : Coordinate.t) :
  (∃ e, Map.move le o n m = (Raise e, m)
        ∧ (e = AttributeError ∧ GameObject.get_coordinate o = None
           ∨ e = ValueError msg_not_adjacent
             ∧ (∃ a, GameObject.get_coordinate o = Some a
                     ∧ Coordinate.is_adjacent a n = false)
           ∨ e = ValueError msg_not_available
             ∧ Map.check_placement le m o (Some n) = false
           ∨ e = ValueError msg_out_of_bounds
           ∨ e = ValueError msg_no_entity))
  ∨ (∃ a o' m1 m',
       GameObject.get_coordinate o = Some a
       ∧ Coordinate.is_adjacent a n = true
       ∧ Map.check_placement le m o (Some n) = true
       ∧ Map.remove le a m = (Ok o', m1)
       ∧ Map.add le o (Some n) m1 = (Ok tt, m')
       ∧ Map.move le o n m = (Ok tt, m')).
Proof.
  rewrite move_unfold. destruct (GameObject.get_coordinate o) as [a|] eqn:Ha.
  2:{ left. exists AttributeError. split; [done|]. by left. }
  destruct (Coordinate.is_adjacent a n) eqn:Hadj; cbn [negb].
  2:{ left. exists (ValueError msg_not_adjacent). split; [done|].
      right. left. split; [done|]. by exists a. }
  destruct (Map.check_placement le m o (Some n)) eqn:Hcheck; cbn [negb].
  2:{ left. exists (ValueError msg_not_available). split; [done|].
      right. right. by left. }
  destruct (remove_cases m a) as [(_ & Hrm)|[(_ & _ & Hrm)|Hrm]].
  - left. exists (ValueError msg_out_of_bounds). rewrite Hrm. split; [done|].
    do 3 right. by left.
  - left. exists (ValueError msg_no_entity). rewrite Hrm. split; [done|].
    by do 4 right.
  - destruct Hrm as (o' & m1 & _ & _ & Hrm & Hsize & Hget). right.
    assert (Map.check_placement le m1 o (Some n) = true) as Hcheck1.
    { apply (check_placement_mono m); [done| |done].
      intros c' Hc'. rewrite Hget. by case_decide. }
    destruct (add_checked m1 o (Some n) Hcheck1) as (m' & Hadd & _).
    exists a, o', m1, m'. by rewrite Hrm, Hadd.
Qed.

End Placement.

Lemma box_test_pointwise (le : Coordinate.t → Coordinate.t → bool)
    (m : Map.t) (o : GameObject.t) (c : Coordinate.t) :
  Coordinate.pointwise le →
  box_test le m o c = true ↔
  0 ≤ get_x c ∧ 0 ≤ get_y c
  ∧ get_x c + GameObject.get_size o - 1 ≤ Map.get_size m - 1
  ∧ get_y c + GameObject.get_size o - 1 ≤ Map.get_size m - 1.
Proof.
  intros Hle. unfold box_test. rewrite !Hle. unfold Coordinate.le_pointwise.
  simpl. rewrite !andb_true_iff, !Z.leb_le. lia.
Qed.

Lemma remove_test_pointwise (le : Coordinate.t → Coordinate.t → bool)
    (m : Map.t) (c : Coordinate.t) :
  Coordinate.pointwise le →
  remove_test le m c = true ↔
  0 ≤ get_x c ≤ Map.get_size m ∧ 0 ≤ get_y c ≤ Map.get_size m.
Proof.
  intros Hle. unfold remove_test. rewrite !Hle. unfold Coordinate.le_pointwise.
  simpl. rewrite !andb_true_iff, !Z.leb_le. lia.
Qed.

(** ** Placement *)




(** The first scenario of the specification. *)
Example scenario_unit :
  Map.check_placement Coordinate.le_pointwise Scenario.grid5 Scenario.U
    (Some (Coordinate 2 2)) = false
  ∧ Map.check_placement Coordinate.le_pointwise Scenario.grid5 Scenario.U
      (Some (Coordinate 1 1)) = true
  ∧ (Map.move Coordinate.le_pointwise Scenario.U (Coordinate 3 3)
       Scenario.grid5).1 = Ok tt
  ∧ Map.get (Map.move Coordinate.le_pointwise Scenario.U (Coordinate 3 3)
               Scenario.grid5).2 (Coordinate 2 2) = None
  ∧ Map.get (Map.move Coordinate.le_pointwise Scenario.U (Coordinate 3 3)
               Scenario.grid5).2 (Coordinate 3 3) = Some Scenario.U
  ∧ (Map.move Coordinate.le_pointwise Scenario.U (Coordinate 0 0)
       Scenario.grid5).1 = Raise (ValueError msg_not_adjacent).
Proof. repeat split; vm_compute; reflexivity. Qed.

(** The second scenario of the specification. *)
Example scenario_building :
  (Map.add Coordinate.le_pointwise Scenario.B (Some (Coordinate 0 0))
     (Map.__init__ 4)) = (Ok tt, Scenario.grid4)
  ∧ Map.get Scenario.grid4 (Coordinate 0 1) = Some Scenario.B
  ∧ Map.get Scenario.grid4 (Coordinate 2 2) = None
  ∧ Map.check_placement Coordinate.le_pointwise Scenario.grid4 Scenario.U
      (Some (Coordinate 1 1)) = false.
Proof. repeat split; vm_compute; reflexivity. Qed.

(** C2.  [add] raises exactly when [check_placement] answers [False], and
    what it raises is the placement error; when [check_placement] answers
    [True] it returns normally, and afterwards every cell of the block
    anchored at the coordinate holds the object while every other cell holds
    what it held. *)
Theorem add_raises_iff_check_fails
    (le : Coordinate.t → Coordinate.t → bool)
    (m : Map.t) (o : GameObject.t) (c : option Coordinate.t) :
  (raises (Map.add le o c m).1 ↔ Map.check_placement le m o c = false)
  ∧ (∀ e, (Map.add le o c m).1 = Raise e →
          e = ValueError msg_cannot_place ∧ PlacementError e)
  ∧ (Map.check_placement le m o c = true →
     ∃ m', Map.add le o c m = (Ok tt, m')
           ∧ Map.get_size m' = Map.get_size m
           ∧ ∀ c', Map.get m' c'
                   = if decide (in_block_at c (GameObject.get_size o) c')
                     then Some o else Map.get m c').
Proof.
  destruct (Map.check_placement le m o c) eqn:Hcheck.
  - destruct (add_checked le m o c Hcheck) as (m' & Hadd & Hm').
    split; [|split].
    + rewrite Hadd. split; [by intros [e ?]|done].
    + intros e. by rewrite Hadd.
    + intros _. by exists m'.
  - pose proof (add_unchecked le m o c Hcheck) as Hadd.
    split; [|split].
    + split; [done|]. intros _. rewrite Hadd. by eexists.
    + intros e. rewrite Hadd. intros [= <-]. split; [done|]. by left.
    + done.
Qed.

(** The two candidate comparisons agree on the tests. *)
Lemma tests_agree_pointwise (le : Coordinate.t → Coordinate.t → bool) :
  Coordinate.pointwise le → tests_agree le.
Proof.
  intros Hle m o c Hk Hbox.
  apply (box_test_pointwise le m o c Hle) in Hbox.
  apply (remove_test_pointwise le m c Hle). lia.
Qed.

Lemma tests_agree_lex : tests_agree Coordinate.le_lex.
Proof.
  intros m o c Hk.
  unfold box_test, remove_test, Coordinate.le_lex, Coordinate.sub, Coordinate.add.
  cbn [Coordinate.get_x Coordinate.get_y].
  rewrite !andb_true_iff, !orb_true_iff, !andb_true_iff.
  rewrite !Z.ltb_lt, !Z.eqb_eq, !Z.leb_le. lia.
Qed.

(** C3.  When [check_placement] answers [True] for an object (of positive
    size, as game objects are) and a coordinate, [add] there and then
    [remove] at that coordinate both return normally, [remove] returns the
    object, and every coordinate reads as before the two calls.  This holds
    for every comparison of coordinates under which an anchor that passes
    the test of [check_placement] passes the test of [remove]: the
    componentwise and the lexicographic comparisons are such. *)
Theorem add_then_remove_restores
    (le : Coordinate.t → Coordinate.t → bool)
    (m : Map.t) (o : GameObject.t) (c : option Coordinate.t) :
  tests_agree le →
  0 < GameObject.get_size o →
  Map.check_placement le m o c = true →
  ∃ a m1 m2,
    c = Some a
    ∧ Map.add le o c m = (Ok tt, m1)
    ∧ Map.remove le a m1 = (Ok o, m2)
    ∧ Map.get_size m2 = Map.get_size m
    ∧ ∀ c', Map.get m2 c' = Map.get m c'.
Proof.
  intros Hle Hk Hcheck.
  destruct c as [a|]; [|apply check_placement_None in Hcheck; lia].
  destruct (add_checked le m o (Some a) Hcheck) as (m1 & Hadd & Hsize1 & Hget1).
  assert (Map.get m1 a = Some o) as Ha.
  { rewrite Hget1. rewrite decide_True; [done|]. by apply in_block_anchor. }
  assert (remove_test le m1 a = true) as Htest.
  { apply (Hle m1 o a Hk).
    rewrite check_placement_true in Hcheck.
    destruct (Hcheck 0 0) as (a' & [= <-] & Hbox & _); [lia..|].
    unfold box_test in *. by rewrite Hsize1. }
  destruct (remove_occupied le m1 a o Htest Ha) as (m2 & Hrm & Hsize2 & Hget2).
  exists a, m1, m2. split; [done|]. split; [done|]. split; [done|].
  split; [congruence|]. intros c'. rewrite Hget2, Hget1. simpl.
  destruct (decide (in_block a (GameObject.get_size o) c')) as [Hin|]; [|done].
  symmetry. by apply (check_placement_block_free le m o a).
Qed.

Lemma add_then_remove_restores_witness :
  ∃ a m1 m2,
    Some (Coordinate 3 3) = Some a
    ∧ Map.add Coordinate.le_lex Scenario.B (Some (Coordinate 3 3))
        Scenario.grid5 = (Ok tt, m1)
    ∧ Map.remove Coordinate.le_lex a m1 = (Ok Scenario.B, m2)
    ∧ Map.get_size m2 = Map.get_size Scenario.grid5
    ∧ ∀ c', Map.get m2 c' = Map.get Scenario.grid5 c'.
Proof.
  apply (add_then_remove_restores Coordinate.le_lex Scenario.grid5
           Scenario.B (Some (Coordinate 3 3))).
  - apply tests_agree_lex.
  - reflexivity.
  - vm_compute. reflexivity.
Defined.

(** The same round trip under the componentwise comparison. *)
Example add_then_remove_pointwise :
  ∃ m1, Map.add Coordinate.le_pointwise Scenario.B (Some (Coordinate 3 3))
          Scenario.grid5 = (Ok tt, m1)
        ∧ Map.remove Coordinate.le_pointwise (Coordinate 3 3) m1
          = (Ok Scenario.B, Scenario.grid5).
Proof. eexists. split; vm_compute; reflexivity. Qed.

(** ** Movement *)

(** C4.  [move] returns normally only if the new coordinate is at Chebyshev
    distance 1 of the coordinate the object records and [check_placement]
    answers [True] for the object there; and whenever [move] raises,
    whatever the exception, every coordinate reads as before the call. *)
Theorem move_succeeds_only_adjacent_and_free
    (le : Coordinate.t → Coordinate.t → bool)
    (m : Map.t) (o : GameObject.t) (n : Coordinate.t) :
  (∀ m', Map.move le o n m = (Ok tt, m') →
     ∃ a, GameObject.get_coordinate o = Some a
          ∧ Coordinate.chebyshev a n = 1
          ∧ Map.check_placement le m o (Some n) = true)
  ∧ (∀ e m', Map.move le o n m = (Raise e, m') →
       Map.get_size m' = Map.get_size m ∧ ∀ c, Map.get m' c = Map.get m c).
Proof.
  destruct (move_cases le m o n)
    as [(e & Hmove & _)|(a & o' & m1 & m' & Ha & Hadj & Hcheck & _ & _ & Hmove)];
    rewrite Hmove.
  - split; [done|]. by intros e' m' [= <- <-].
  - split; [|done]. intros m'' _. exists a. split; [done|]. split; [|done].
    by apply Z.eqb_eq.
Qed.

(** C10.  An object of size 2 or more that is placed cannot be moved:
    whatever the new coordinate, [move] raises the adjacency error or the
    placement error, since a block anchored next to the recorded coordinate
    shares a cell with the block the object occupies. *)
Theorem move_of_large_object_raises
    (le : Coordinate.t → Coordinate.t → bool)
    (m : Map.t) (o : GameObject.t) (n : Coordinate.t) :
  placed m o →
  2 ≤ GameObject.get_size o →
  ∃ e, Map.move le o n m = (Raise e, m)
       ∧ (NotAdjacentError e ∨ PlacementError e).
Proof.
  intros (a & Ha & Hblock) Hk. rewrite move_unfold, Ha.
  destruct (Coordinate.is_adjacent a n) eqn:Hadj; cbn [negb].
  2:{ exists (ValueError msg_not_adjacent). split; [done|]. by left. }
  destruct (Map.check_placement le m o (Some n)) eqn:Hcheck; cbn [negb].
  2:{ exists (ValueError msg_not_available). split; [done|]. right. by right. }
  exfalso. apply Z.eqb_eq in Hadj. unfold Coordinate.chebyshev in Hadj.
  set (c := Coordinate (Z.max (get_x a) (get_x n)) (Z.max (get_y a) (get_y n))).
  assert (Map.get m c = Some o) as Hsome.
  { apply Hblock. unfold in_block, c. simpl. lia. }
  assert (Map.get m c = None) as Hnone.
  { apply (check_placement_block_free le m o n); [done|].
    unfold in_block, c. simpl. lia. }
  congruence.
Qed.

Lemma grid4_placed : placed Scenario.grid4 Scenario.B.
Proof.
  exists (Coordinate 0 0). split; [done|]. intros [cx cy] [Hx Hy].
  simpl in Hx, Hy.
  assert (cx = 0 ∨ cx = 1) as [-> | ->] by lia;
    (assert (cy = 0 ∨ cy = 1) as [-> | ->] by lia); reflexivity.
Qed.

Lemma move_of_large_object_raises_witness :
  ∃ e, Map.move Coordinate.le_pointwise Scenario.B (Coordinate 1 1)
         Scenario.grid4 = (Raise e, Scenario.grid4)
       ∧ (NotAdjacentError e ∨ PlacementError e).
Proof.
  apply (move_of_large_object_raises Coordinate.le_pointwise Scenario.grid4
           Scenario.B (Coordinate 1 1)).
  - apply grid4_placed.
  - simpl. lia.
Defined.

(** ** Removal *)

(** When [remove] raises, every coordinate reads as before the call. *)
Lemma remove_raises_unchanged (le : Coordinate.t → Coordinate.t → bool)
    (m m' : Map.t) (c : Coordinate.t) (e : exception) :
  Map.remove le c m = (Raise e, m') → m' = m.
Proof.
  destruct (remove_cases le m c)
    as [(_ & ->)|[(_ & _ & ->)|(o & m1 & _ & _ & -> & _)]]; congruence.
Qed.

(** With the componentwise comparison, what [remove] takes for out of bounds
    is the outside of [[0, size] x [0, size]]. *)
Lemma remove_out_of_bounds_iff (le : Coordinate.t → Coordinate.t → bool)
    (m : Map.t) (c : Coordinate.t) :
  Coordinate.pointwise le →
  (Map.remove le c m).1 = Raise (ValueError msg_out_of_bounds) ↔
  ¬ (0 ≤ get_x c ≤ Map.get_size m ∧ 0 ≤ get_y c ≤ Map.get_size m).
Proof.
  intros Hle. rewrite <- (remove_test_pointwise le m c Hle).
  destruct (remove_cases le m c)
    as [(Ht & ->)|[(Ht & _ & ->)|(o & m1 & Ht & _ & -> & _)]];
    rewrite Ht; simpl; split; try done; intros H; by destruct H.
Qed.

(** C5, at the corner just outside of the empty grid of size 5: the cell is
    not in [[0, 4] x [0, 4]], yet [remove] raises the error of the empty
    cell, not the error of the bounds. *)
Theorem remove_just_outside :
  ¬ in_bounds (Map.__init__ 5) (Coordinate 5 5)
  ∧ Map.remove Coordinate.le_pointwise (Coordinate 5 5) (Map.__init__ 5)
    = (Raise (ValueError msg_no_entity), Map.__init__ 5)
  ∧ ¬ OutOfBoundsError (ValueError msg_no_entity).
Proof.
  split; [|split].
  - unfold in_bounds. simpl. lia.
  - reflexivity.
  - unfold OutOfBoundsError. discriminate.
Qed.

(** ** Region extraction *)

Lemma get_init (size : Z) (c : Coordinate.t) :
  Map.get (Map.__init__ size) c = None.
Proof. apply lookup_empty. Qed.

Section Extraction.

Variable self : Map.t.
Variable from_coord : Coordinate.t.

Lemma get_copy_cell (x y : Z) (new_map : Map.t) (c : Coordinate.t) :
  Map.get (copy_cell self from_coord x y new_map) c
  = if decide (source from_coord c = Coordinate x y)
    then Map.get self (source from_coord c) ∪ Map.get new_map c
    else Map.get new_map c.
Proof.
  unfold copy_cell, source.
  destruct (decide (Coordinate _ _ = Coordinate x y)) as [Heq|Hne].
  - rewrite Heq. injection Heq as Hx Hy.
    destruct (Map.get self (Coordinate x y)) as [obj|];
      [|by destruct (Map.get new_map c)].
    rewrite get_setitem, decide_True; [by destruct (Map.get new_map c)|].
    destruct c as [cx cy]. simpl in *. f_equal; lia.
  - destruct (Map.get self (Coordinate x y)) as [obj|]; [|done].
    rewrite get_setitem, decide_False; [done|]. intros <-. apply Hne.
    simpl. f_equal; lia.
Qed.

Lemma size_copy_cell (x y : Z) (new_map : Map.t) :
  Map.get_size (copy_cell self from_coord x y new_map) = Map.get_size new_map.
Proof.
  unfold copy_cell. destruct (Map.get self _); [|done]. apply size_setitem.
Qed.

Lemma get_copy_row (x : Z) (ys : list Z) (new_map : Map.t) (c : Coordinate.t) :
  Map.get (for_loop ys (copy_cell self from_coord x) new_map) c
  = if decide (get_x (source from_coord c) = x ∧ get_y (source from_coord c) ∈ ys)
    then Map.get self (source from_coord c) ∪ Map.get new_map c
    else Map.get new_map c.
Proof.
  unfold for_loop. revert new_map.
  induction ys as [|y ys IH]; intros new_map; cbn [foldl].
  - rewrite decide_False; [done|]. intros [_ H]. by apply elem_of_nil in H.
  - rewrite IH, get_copy_cell.
    destruct (decide (source from_coord c = Coordinate x y)) as [Heq|Hne].
    + rewrite (decide_True (P := _ ∧ _ ∈ y :: ys)).
      2:{ rewrite Heq. simpl. split; [done|]. apply list_elem_of_here. }
      case_decide; [|done].
      by destruct (Map.get self (source from_coord c)), (Map.get new_map c).
    + apply decide_ext. rewrite elem_of_cons.
      split; [by intros [-> ?]; auto|]. intros [Hx [Hy|Hy]]; [|done].
      exfalso. apply Hne. destruct (source from_coord c). simpl in *. by subst.
Qed.

Lemma size_copy_row (x : Z) (ys : list Z) (new_map : Map.t) :
  Map.get_size (for_loop ys (copy_cell self from_coord x) new_map) = Map.get_size new_map.
Proof.
  unfold for_loop. revert new_map.
  induction ys as [|y ys IH]; intros new_map; cbn [foldl]; [done|].
  by rewrite IH, size_copy_cell.
Qed.

Lemma get_copy_rows (xs ys : list Z) (new_map : Map.t) (c : Coordinate.t) :
  Map.get (for_loop xs (λ x, for_loop ys (copy_cell self from_coord x)) new_map) c
  = if decide (get_x (source from_coord c) ∈ xs ∧ get_y (source from_coord c) ∈ ys)
    then Map.get self (source from_coord c) ∪ Map.get new_map c
    else Map.get new_map c.
Proof.
  unfold for_loop at 1. revert new_map.
  induction xs as [|x xs IH]; intros new_map; cbn [foldl].
  - rewrite decide_False; [done|]. intros [H _]. by apply elem_of_nil in H.
  - rewrite IH, get_copy_row.
    destruct (decide (get_x (source from_coord c) = x ∧ get_y (source from_coord c) ∈ ys))
      as [[Hx Hy]|Hn].
    + rewrite (decide_True (P := _ ∈ x :: xs ∧ _)).
      2:{ split; [|done]. rewrite Hx. apply list_elem_of_here. }
      case_decide; [|done].
      by destruct (Map.get self (source from_coord c)), (Map.get new_map c).
    + apply decide_ext. rewrite elem_of_cons.
      split; [by intros [? ?]; auto|]. intros [[Hx|Hx] Hy]; [|done].
      exfalso. by apply Hn.
Qed.

Lemma size_copy_rows (xs ys : list Z) (new_map : Map.t) :
  Map.get_size (for_loop xs (λ x, for_loop ys (copy_cell self from_coord x)) new_map)
  = Map.get_size new_map.
Proof.
  unfold for_loop at 1. revert new_map.
  induction xs as [|x xs IH]; intros new_map; cbn [foldl]; [done|].
  by rewrite IH, size_copy_row.
Qed.

(** The loops of [get_from_to] are these updates. *)
Lemma get_from_to_loops (to_coord : Coordinate.t) :
  Map.get_from_to self from_coord to_coord
  = for_loop (range_from (get_x from_coord) (get_x to_coord + 1)) (λ x,
      for_loop (range_from (get_y from_coord) (get_y to_coord + 1))
        (copy_cell self from_coord x))
      (Map.__init__ (Z.max (get_x to_coord - get_x from_coord)
                           (get_y to_coord - get_y from_coord))).
Proof.
  unfold Map.get_from_to. cbv zeta.
  rewrite (for_each_ext _ _
             (λ x, for_each (range_from (get_y from_coord) (get_y to_coord + 1))
                     (λ y, modify (copy_cell self from_coord x y)))).
  - by rewrite for_each_nested_modify.
  - intros x s _. apply for_each_ext. intros y s' _.
    unfold copy_cell, Map.__force_add. by destruct (Map.get self _).
Qed.

(** Every cell of the new map, read in terms of [self]. *)
Lemma get_get_from_to (to_coord c : Coordinate.t) :
  Map.get (Map.get_from_to self from_coord to_coord) c
  = if decide (in_rectangle from_coord to_coord (source from_coord c))
    then Map.get self (source from_coord c) else None.
Proof.
  rewrite get_from_to_loops, get_copy_rows, get_init.
  rewrite (decide_ext _ (in_rectangle from_coord to_coord (source from_coord c))).
  - case_decide; [|done]. by destruct (Map.get self _).
  - unfold in_rectangle. rewrite !elem_of_range_from. lia.
Qed.

End Extraction.

(** C7.  [get_from_to] returns a map whose size is the larger of the two
    differences between [to] and [from], in which every cell [(x, y)] of
    the rectangle that holds an object in the original holds it at
    [(x - from.x, y - from.y)], so that [from] goes to (0,0); and the new map
    holds nothing else. *)
Theorem get_from_to_translates (m : Map.t) (from_coord to_coord : Coordinate.t) :
  Map.get_size (Map.get_from_to m from_coord to_coord)
  = Z.max (get_x to_coord - get_x from_coord) (get_y to_coord - get_y from_coord)
  ∧ (∀ c o, in_rectangle from_coord to_coord c → Map.get m c = Some o →
       Map.get (Map.get_from_to m from_coord to_coord)
         (Coordinate (get_x c - get_x from_coord) (get_y c - get_y from_coord))
       = Some o)
  ∧ (∀ c' o, Map.get (Map.get_from_to m from_coord to_coord) c' = Some o →
       ∃ c, in_rectangle from_coord to_coord c ∧ Map.get m c = Some o
            ∧ c' = Coordinate (get_x c - get_x from_coord)
                              (get_y c - get_y from_coord)).
Proof.
  split; [|split].
  - by rewrite get_from_to_loops, size_copy_rows.
  - intros [cx cy] o Hin Hget. rewrite get_get_from_to. unfold source. simpl.
    replace (cx - get_x from_coord + get_x from_coord) with cx by lia.
    replace (cy - get_y from_coord + get_y from_coord) with cy by lia.
    by rewrite decide_True.
  - intros [cx cy] o. rewrite get_get_from_to. unfold source. simpl.
    case_decide as Hin; [|done]. intros Hget. eexists. split; [exact Hin|].
    split; [done|]. simpl. f_equal; lia.
Qed.

(** The cell of [from] goes to (0,0). *)
Lemma get_from_to_origin (m : Map.t) (from_coord to_coord : Coordinate.t) :
  get_x from_coord ≤ get_x to_coord → get_y from_coord ≤ get_y to_coord →
  Map.get (Map.get_from_to m from_coord to_coord) (Coordinate 0 0)
  = Map.get m from_coord.
Proof.
  intros Hx Hy. rewrite get_get_from_to. unfold source.
  destruct from_coord as [fx fy].
  simpl in *. rewrite decide_True; [done|]. unfold in_rectangle. simpl. lia.
Qed.

(** ** Whole blocks *)

Lemma anchors_of_ext (m m' : Map.t) (P : gmap Coordinate.t GameObject.t) :
  (∀ c, Map.get m' c = Map.get m c) → anchors_of m P → anchors_of m' P.
Proof.
  intros Hget [Hfull Hcover Hapart]. split.
  - intros a o Ha. destruct (Hfull a o Ha) as [Hk Hblock]. split; [done|].
    intros c Hc. rewrite Hget. by apply Hblock.
  - intros c o. rewrite Hget. apply Hcover.
  - apply Hapart.
Qed.

Lemma anchors_of_init (size : Z) : anchors_of (Map.__init__ size) ∅.
Proof.
  split.
  - intros a o Ha. by rewrite lookup_empty in Ha.
  - intros c o Hc. by rewrite get_init in Hc.
  - intros a1 o1 a2 o2 c Ha1. by rewrite lookup_empty in Ha1.
Qed.

Lemma anchors_of_whole_blocks (m : Map.t) (P : gmap Coordinate.t GameObject.t) :
  anchors_of m P → whole_blocks m.
Proof.
  intros [Hfull Hcover _] c o Hc.
  destruct (Hcover c o Hc) as (a & Ha & Hin). exists a. split; [done|].
  by apply Hfull.
Qed.

Section Anchors.

Variable le : Coordinate.t → Coordinate.t → bool.

Lemma anchors_of_add (m m' : Map.t) (P : gmap Coordinate.t GameObject.t)
    (o : GameObject.t) (c : option Coordinate.t) :
  anchors_of m P → Map.add le o c m = (Ok tt, m') →
  anchors_of m' (record_anchor o c P).
Proof.
  intros HP Hadd.
  destruct (Map.check_placement le m o c) eqn:Hcheck.
  2:{ rewrite (add_unchecked le m o c Hcheck) in Hadd. done. }
  destruct (add_checked le m o c Hcheck) as (m'' & Hadd' & _ & Hget).
  assert (m'' = m') as -> by congruence. clear Hadd Hadd'.
  unfold record_anchor. destruct c as [a|].
  2:{ apply (anchors_of_ext m); [|done]. intros c'. rewrite Hget.
      by destruct (decide (in_block_at None (GameObject.get_size o) c')) as [[]|]. }
  simpl in Hget. case_decide as Hk.
  2:{ apply (anchors_of_ext m); [|done]. intros c'. rewrite Hget.
      rewrite decide_False; [done|]. unfold in_block. lia. }
  pose proof (check_placement_block_free le m o a) as Hfree.
  destruct HP as [Hfull Hcover Hapart].
  assert (∀ a' o' c', P !! a' = Some o' →
            in_block a' (GameObject.get_size o') c' →
            ¬ in_block a (GameObject.get_size o) c') as Hold.
  { intros a' o' c' Ha' Hin' Hin.
    destruct (Hfull a' o' Ha') as [_ Hblock].
    specialize (Hblock c' Hin'). by rewrite (Hfree c' Hcheck Hin) in Hblock. }
  assert (P !! a = None) as HPa.
  { destruct (P !! a) as [o'|] eqn:Ha; [|done]. exfalso.
    destruct (Hfull a o' Ha) as [Hk' _].
    apply (Hold a o' a Ha); by apply in_block_anchor. }
  split.
  - intros a' o'. rewrite lookup_insert. case_decide as Heq.
    + intros [= <-]. subst a'. split; [done|]. intros c' Hin.
      by rewrite Hget, decide_True.
    + intros Ha'. destruct (Hfull a' o' Ha') as [Hk' Hblock]. split; [done|].
      intros c' Hin'. rewrite Hget, decide_False; [by apply Hblock|].
      by apply (Hold a' o').
  - intros c' o'. rewrite Hget. case_decide as Hin.
    + intros [= <-]. exists a. by rewrite lookup_insert_eq.
    + intros Hc'. destruct (Hcover c' o' Hc') as (a' & Ha' & Hin').
      exists a'. split; [|done]. rewrite lookup_insert_ne; [done|].
      intros <-. by rewrite HPa in Ha'.
  - intros a1 o1 a2 o2 c'. rewrite !lookup_insert.
    case_decide as H1; case_decide as H2; [congruence|..].
    + intros [= <-] Ha2 Hin1 Hin2. exfalso. subst a1.
      by apply (Hold a2 o2 c').
    + intros Ha1 [= <-] Hin1 Hin2. exfalso. subst a2.
      by apply (Hold a1 o1 c').
    + apply Hapart.
Qed.

Lemma anchors_of_remove (m m' : Map.t) (P : gmap Coordinate.t GameObject.t)
    (a : Coordinate.t) (o : GameObject.t) :
  anchors_of m P → is_Some (P !! a) → Map.remove le a m = (Ok o, m') →
  anchors_of m' (delete a P).
Proof.
  intros [Hfull Hcover Hapart] [o' Ha] Hrm.
  destruct (Hfull a o' Ha) as [Hk Hblock].
  destruct (remove_cases le m a)
    as [(_ & Hr)|[(_ & _ & Hr)|(o'' & m'' & _ & Hget & Hr & _ & Hget')]];
    rewrite Hr in Hrm; [done..|].
  injection Hrm as -> ->.
  rewrite (Hblock a) in Hget by (by apply in_block_anchor).
  injection Hget as <-.
  split.
  - intros a' o''. rewrite lookup_delete. case_decide as Heq; [done|].
    intros Ha'. destruct (Hfull a' o'' Ha') as [Hk' Hblock']. split; [done|].
    intros c Hin'. rewrite Hget', decide_False; [by apply Hblock'|].
    intros Hin. apply Heq. by apply (Hapart a o' a' o'' c).
  - intros c o''. rewrite Hget'. case_decide as Hin; [done|].
    intros Hc. destruct (Hcover c o'' Hc) as (a' & Ha' & Hin').
    exists a'. split; [|done]. rewrite lookup_delete_ne; [done|].
    intros <-. assert (o'' = o') as -> by congruence. done.
  - intros a1 o1 a2 o2 c. rewrite !lookup_delete.
    repeat case_decide; try done. apply Hapart.
Qed.

Lemma reachable_by_anchors_anchors_of (size : Z) (m : Map.t)
    (P : gmap Coordinate.t GameObject.t) :
  reachable_by_anchors le size m P → anchors_of m P.
Proof.
  induction 1 as [|m P o c m' _ IH Hadd|m P a o m' _ IH Ha Hrm
                  |m P o a n m' _ IH Hcoord Ha Hmove].
  - apply anchors_of_init.
  - by apply (anchors_of_add m).
  - by apply (anchors_of_remove m m' P a o).
  - destruct (move_cases le m o n)
      as [(e & Hr & _)|(a' & o' & m1 & m'' & Ha' & _ & _ & Hrm & Hadd & Hr)];
      rewrite Hr in Hmove; [done|].
    injection Hmove as ->. assert (a' = a) as -> by congruence.
    apply (anchors_of_add m1); [|done].
    by apply (anchors_of_remove m m1 P a o').
Qed.

End Anchors.

(** C6, as it holds: in a grid reached from the empty grid by calls that
    all return normally, [remove] being called on the anchors of blocks only
    (by the caller, and by [move] on the coordinate the moved object
    records), a cell that holds an object lies in a block of the size of the
    object that holds this object in every cell. *)
Theorem reachable_by_anchors_whole_blocks
    (le : Coordinate.t → Coordinate.t → bool) (size : Z) (m : Map.t)
    (P : gmap Coordinate.t GameObject.t) :
  reachable_by_anchors le size m P → whole_blocks m.
Proof.
  intros H. apply (anchors_of_whole_blocks m P).
  by apply (reachable_by_anchors_anchors_of le size).
Qed.

Lemma reachable_by_anchors_whole_blocks_witness :
  whole_blocks Scenario.grid4.
Proof.
  apply (reachable_by_anchors_whole_blocks Coordinate.le_pointwise 4
           Scenario.grid4
           (record_anchor Scenario.B (Some (Coordinate 0 0)) ∅)).
  apply (by_anchors_add _ _ (Map.__init__ 4)).
  - apply by_anchors_init.
  - vm_compute. reflexivity.
Defined.

(** C6, as stated, fails: [remove] at (1,1), a cell of the building that is
    not its anchor, returns normally and leaves three cells of the block. *)
Lemma reachable_torn_block :
  reachable Coordinate.le_pointwise 4 Scenario.grid4_torn
  ∧ ¬ whole_blocks Scenario.grid4_torn.
Proof.
  split.
  - apply (reachable_step _ _ Scenario.grid4 (Remove (Coordinate 1 1))).
    + apply (reachable_step _ _ (Map.__init__ 4)
               (Add Scenario.B (Some (Coordinate 0 0)))).
      * apply reachable_init.
      * vm_compute. reflexivity.
    + vm_compute. reflexivity.
  - intros H.
    destruct (H (Coordinate 0 0) Scenario.B eq_refl) as ([ax ay] & [Hx Hy] & Hall).
    simpl in Hx, Hy.
    assert (Map.get Scenario.grid4_torn (Coordinate (ax + 1) (ay + 1))
            = Some Scenario.B) as Hcell.
    { apply Hall. unfold in_block. simpl. lia. }
    assert (Map.get Scenario.grid4_torn (Coordinate ax ay)
            = Some Scenario.B) as Hanchor.
    { apply Hall. unfold in_block. simpl. lia. }
    assert (ax = -1 ∨ ax = 0) as [-> | ->] by lia;
      (assert (ay = -1 ∨ ay = 0) as [-> | ->] by lia);
      vm_compute in Hcell, Hanchor; discriminate.
Qed.

(** [move] tears a block in the same way when the coordinate that the moved
    object records is a cell of another object that is not its anchor. *)
Example move_tears_block :
  Map.move Coordinate.le_pointwise Scenario.stray (Coordinate 2 2)
    Scenario.grid4
  = (Ok tt, Map.setitem (Coordinate 2 2) (Some Scenario.stray)
              Scenario.grid4_torn).
Proof. vm_compute. reflexivity. Qed.

(** ** Path finding *)

(** C9, on the code: [path_finding] returns [None] whatever the grid and the
    two coordinates, and leaves the grid as it is; so it does on the empty
    grid of size 3 from (0,0) to (2,2), where a path of 3 coordinates is
    expected. *)
Theorem path_finding_returns_None (m : Map.t) (start end_ : Coordinate.t) :
  Map.path_finding start end_ m = (Ok None, m)
  ∧ Map.path_finding (Coordinate 0 0) (Coordinate 2 2) (Map.__init__ 3)
    = (Ok None, Map.__init__ 3).
Proof. done. Qed.

(** ** Copies *)

Lemma call_other {A} (self : Heap.instance) (method : M Map.t A)
    (h : gmap Heap.loc (gmap Coordinate.t GameObject.t)) (l : Heap.loc) :
  l ≠ Heap.matrix self → (Heap.call self method h).2 !! l = h !! l.
Proof.
  intros Hl. unfold Heap.call. destruct (Heap.state h self) as [m|]; [|done].
  destruct (method m) as [r m']. simpl. by rewrite lookup_insert_ne.
Qed.

Lemma perform_all_other (le : Coordinate.t → Coordinate.t → bool)
    (self : Heap.instance) (ps : list operation)
    (h : gmap Heap.loc (gmap Coordinate.t GameObject.t)) (l : Heap.loc) :
  l ≠ Heap.matrix self → perform_all le self ps h !! l = h !! l.
Proof.
  intros Hl. unfold perform_all. revert h.
  induction ps as [|p ps IH]; intros h; simpl; [done|].
  by rewrite IH, call_other.
Qed.

Lemma heap_get_ext (h h' : gmap Heap.loc (gmap Coordinate.t GameObject.t))
    (self self' : Heap.instance) (c : Coordinate.t) :
  h' !! Heap.matrix self' = h !! Heap.matrix self →
  Heap.get h' self' c = Heap.get h self c.
Proof.
  intros Heq. unfold Heap.get, Heap.state. rewrite Heq.
  by destruct (h !! Heap.matrix self).
Qed.

Lemma capture_run (self : Heap.instance)
    (h : gmap Heap.loc (gmap Coordinate.t GameObject.t))
    (d : gmap Coordinate.t GameObject.t) :
  h !! Heap.matrix self = Some d →
  ∃ l h', Heap.capture self h = (Ok (Heap.Instance (Heap.size self) l), h')
          ∧ l ≠ Heap.matrix self
          ∧ h' !! l = Some d
          ∧ h' !! Heap.matrix self = Some d.
Proof.
  intros Hd. unfold Heap.capture, Heap.__init__, Heap.copy, mbind, M_bind.
  set (l0 := fresh (dom h)). set (h0 := <[l0 := ∅]> h).
  assert (l0 ≠ Heap.matrix self) as Hl0.
  { intros Heq. apply (is_fresh (dom h)). fold l0. rewrite Heq.
    by apply elem_of_dom. }
  assert (h0 !! Heap.matrix self = Some d) as Hd0.
  { unfold h0. by rewrite lookup_insert_ne. }
  rewrite Hd0. set (l1 := fresh (dom h0)).
  assert (l1 ≠ Heap.matrix self) as Hl1.
  { intros Heq. apply (is_fresh (dom h0)). fold l1. rewrite Heq.
    by apply elem_of_dom. }
  exists l1, (<[l1 := d]> h0). split; [done|]. split; [done|].
  split; [apply lookup_insert_eq|]. by rewrite lookup_insert_ne.
Qed.

(** C8.  [capture] returns an instance of the same size that reads as the
    original at every coordinate; and whatever operations are then run on
    the copy, the original reads as before at every coordinate, as the copy
    does whatever operations are run on the original. *)
Theorem capture_is_independent
    (le : Coordinate.t → Coordinate.t → bool)
    (h : gmap Heap.loc (gmap Coordinate.t GameObject.t))
    (self : Heap.instance) :
  is_Some (h !! Heap.matrix self) →
  ∃ copy h',
    Heap.capture self h = (Ok copy, h')
    ∧ Heap.size copy = Heap.size self
    ∧ (∀ c, Heap.get h' copy c = Heap.get h self c)
    ∧ (∀ c, Heap.get h' self c = Heap.get h self c)
    ∧ (∀ ps c, Heap.get (perform_all le copy ps h') self c = Heap.get h self c)
    ∧ (∀ ps c, Heap.get (perform_all le self ps h') copy c = Heap.get h self c).
Proof.
  intros [d Hd].
  destruct (capture_run self h d Hd) as (l & h' & Hrun & Hl & Hcopy & Hself).
  exists (Heap.Instance (Heap.size self) l), h'. split; [done|]. split; [done|].
  split; [|split; [|split]].
  - intros c. apply heap_get_ext. simpl. congruence.
  - intros c. apply heap_get_ext. congruence.
  - intros ps c. apply heap_get_ext.
    rewrite perform_all_other by (simpl; congruence). congruence.
  - intros ps c. apply heap_get_ext. simpl.
    rewrite perform_all_other by done. congruence.
Qed.

Lemma capture_is_independent_witness :
  ∃ copy h',
    Heap.capture Scenario.original Scenario.heap5 = (Ok copy, h')
    ∧ Heap.size copy = Heap.size Scenario.original
    ∧ (∀ c, Heap.get h' copy c = Heap.get Scenario.heap5 Scenario.original c)
    ∧ (∀ c, Heap.get h' Scenario.original c
            = Heap.get Scenario.heap5 Scenario.original c)
    ∧ (∀ ps c, Heap.get (perform_all Coordinate.le_pointwise copy ps h')
                 Scenario.original c
               = Heap.get Scenario.heap5 Scenario.original c)
    ∧ (∀ ps c, Heap.get (perform_all Coordinate.le_pointwise Scenario.original
                           ps h') copy c
               = Heap.get Scenario.heap5 Scenario.original c).
Proof.
  apply (capture_is_independent Coordinate.le_pointwise Scenario.heap5
           Scenario.original).
  vm_compute. eexists. reflexivity.
Defined.

(** An [add] on the copy is seen by the copy and not by the original. *)
Example capture_then_add :
  match Heap.capture Scenario.original Scenario.heap5 with
  | (Ok copy, h') =>
    let h'' := perform_all Coordinate.le_pointwise copy
                 [Add Scenario.B (Some (Coordinate 3 3))] h' in
    Heap.get h'' copy (Coordinate 3 3) = Some Scenario.B
    ∧ Heap.get h'' Scenario.original (Coordinate 3 3) = None
  | (Raise _, _) => False
  end.
Proof. vm_compute. done. Qed.

(** Two instances on one dictionary would see each other's writes: the copy
    of the dictionary in [capture] is what keeps the instances apart. *)
Example shared_dictionary :
  Heap.get
    (perform_all Coordinate.le_pointwise Scenario.alias
       [Add Scenario.B (Some (Coordinate 3 3))] Scenario.heap5)
    Scenario.original (Coordinate 3 3) = Some Scenario.B.
Proof. vm_compute. reflexivity. Qed.

(** * Further properties of the operations *)

(** ** remove *)

(** X1.  The outcomes of [remove], for the componentwise comparison.  It
    returns normally exactly on an occupied cell of [[0, size] x [0, size]]:
    it returns the object found there, and clears the block anchored at the
    argument, of the size of that object, and nothing else.  Otherwise it
    raises one of its two errors and leaves the grid as it was. *)
Theorem remove_outcomes (le : Coordinate.t → Coordinate.t → bool)
    (m : Map.t) (c : Coordinate.t) :
  Coordinate.pointwise le →
  match Map.remove le c m with
  | (Ok o, m') =>
    in_remove_range m c ∧ Map.get m c = Some o
    ∧ Map.get_size m' = Map.get_size m
    ∧ ∀ c', Map.get m' c'
            = if decide (in_block c (GameObject.get_size o) c')
              then None else Map.get m c'
  | (Raise e, m') =>
    m' = m
    ∧ (e = ValueError msg_out_of_bounds ∧ ¬ in_remove_range m c
       ∨ e = ValueError msg_no_entity ∧ in_remove_range m c
         ∧ Map.get m c = None)
  end.
Proof.
  intros Hle. pose proof (remove_test_pointwise le m c Hle) as Htest.
  fold (in_remove_range m c) in Htest.
  destruct (remove_cases le m c)
    as [(Ht & ->)|[(Ht & Hget & ->)|(o & m' & Ht & Hget & -> & Hsize & Hget')]].
  - split; [done|]. left. split; [done|]. rewrite <- Htest, Ht. done.
  - split; [done|]. right. split; [done|]. by rewrite <- Htest.
  - by rewrite <- Htest.
Qed.

Lemma remove_outcomes_witness :
  match Map.remove Coordinate.le_pointwise (Coordinate 1 1) Scenario.grid4 with
  | (Ok o, m') =>
    in_remove_range Scenario.grid4 (Coordinate 1 1)
    ∧ Map.get Scenario.grid4 (Coordinate 1 1) = Some o
    ∧ Map.get_size m' = Map.get_size Scenario.grid4
    ∧ ∀ c', Map.get m' c'
            = if decide (in_block (Coordinate 1 1) (GameObject.get_size o) c')
              then None else Map.get Scenario.grid4 c'
  | (Raise e, m') =>
    m' = Scenario.grid4
    ∧ (e = ValueError msg_out_of_bounds
       ∧ ¬ in_remove_range Scenario.grid4 (Coordinate 1 1)
       ∨ e = ValueError msg_no_entity
         ∧ in_remove_range Scenario.grid4 (Coordinate 1 1)
         ∧ Map.get Scenario.grid4 (Coordinate 1 1) = None)
  end.
Proof.
  apply (remove_outcomes Coordinate.le_pointwise Scenario.grid4 (Coordinate 1 1)).
  intros a b. reflexivity.
Defined.

(** ** add *)

(** X2.  For an object whose size is not positive the loops of
    [check_placement] and of [add] have no turn: the check answers [True]
    for every coordinate, [None] included, and [add] returns normally and
    leaves the grid as it was. *)
Theorem add_of_empty_object (le : Coordinate.t → Coordinate.t → bool)
    (m : Map.t) (o : GameObject.t) (c : option Coordinate.t) :
  GameObject.get_size o ≤ 0 →
  Map.check_placement le m o c = true ∧ Map.add le o c m = (Ok tt, m).
Proof.
  intros Hk.
  assert (Map.check_placement le m o c = true) as Hcheck.
  { apply check_placement_true. intros x y Hx. lia. }
  split; [done|].
  destruct (add_checked le m o c Hcheck) as (m' & -> & Hsize & Hget).
  f_equal. apply map_ext; [done|]. intros c'. rewrite Hget.
  rewrite decide_False; [done|]. destruct c as [a|]; [|by intros []].
  unfold in_block_at, in_block. lia.
Qed.

Lemma add_of_empty_object_witness :
  Map.check_placement Coordinate.le_pointwise Scenario.grid5 Scenario.ghost None
  = true
  ∧ Map.add Coordinate.le_pointwise Scenario.ghost None Scenario.grid5
    = (Ok tt, Scenario.grid5).
Proof.
  apply (add_of_empty_object Coordinate.le_pointwise Scenario.grid5
           Scenario.ghost None).
  simpl. lia.
Defined.

(** X3.  Blocks do not overlap: once [add] has returned normally, an [add]
    of any object on a block that shares a cell with the block just written
    raises the placement error and leaves the grid as it is. *)
Theorem add_on_overlap_raises (le : Coordinate.t → Coordinate.t → bool)
    (m m' : Map.t) (o o2 : GameObject.t) (a a2 c : Coordinate.t) :
  Map.add le o (Some a) m = (Ok tt, m') →
  in_block a (GameObject.get_size o) c →
  in_block a2 (GameObject.get_size o2) c →
  Map.add le o2 (Some a2) m' = (Raise (ValueError msg_cannot_place), m').
Proof.
  intros Hadd Hin Hin2.
  destruct (Map.check_placement le m o (Some a)) eqn:Hcheck.
  2:{ by rewrite (add_unchecked le m o (Some a) Hcheck) in Hadd. }
  destruct (add_checked le m o (Some a) Hcheck) as (m'' & Hadd' & _ & Hget).
  assert (m'' = m') as -> by congruence.
  apply add_unchecked.
  destruct (Map.check_placement le m' o2 (Some a2)) eqn:Hcheck2; [|done].
  pose proof (check_placement_block_free le m' o2 a2 c Hcheck2 Hin2) as Hnone.
  rewrite Hget in Hnone. simpl in Hnone. by rewrite decide_True in Hnone.
Qed.

Lemma add_on_overlap_raises_witness :
  Map.add Coordinate.le_pointwise Scenario.U (Some (Coordinate 1 1))
    Scenario.grid4
  = (Raise (ValueError msg_cannot_place), Scenario.grid4).
Proof.
  apply (add_on_overlap_raises Coordinate.le_pointwise (Map.__init__ 4)
           Scenario.grid4 Scenario.B Scenario.U (Coordinate 0 0)
           (Coordinate 1 1) (Coordinate 1 1)).
  - vm_compute. reflexivity.
  - unfold in_block. simpl. lia.
  - unfold in_block. simpl. lia.
Defined.

(** ** The size and the bounds *)

(** X4.  No operation changes the size of the map, whether it returns
    normally or raises. *)
Theorem perform_keeps_size (le : Coordinate.t → Coordinate.t → bool)
    (p : operation) (m : Map.t) :
  Map.get_size (perform le p m).2 = Map.get_size m.
Proof.
  destruct p as [o c|c|o n]; simpl.
  - destruct (Map.check_placement le m o c) eqn:Hcheck.
    + by destruct (add_checked le m o c Hcheck) as (m' & -> & Hsize & _).
    + by rewrite (add_unchecked le m o c Hcheck).
  - unfold mbind, M_bind.
    by destruct (remove_cases le m c)
      as [(_ & ->)|[(_ & _ & ->)|(o & m' & _ & _ & -> & Hsize & _)]].
  - destruct (move_cases le m o n)
      as [(e & -> & _)|(a & o' & m1 & m' & _ & _ & _ & Hrm & Hadd & ->)];
      [done|]. simpl.
    destruct (remove_cases le m a)
      as [(_ & Hr)|[(_ & _ & Hr)|(o'' & m1' & _ & _ & Hr & Hsize & _)]];
      rewrite Hr in Hrm; try done. injection Hrm as <- <-.
    destruct (Map.check_placement le m1' o (Some n)) eqn:Hcheck.
    + destruct (add_checked le m1' o (Some n) Hcheck) as (m'' & Hadd' & Hsize' & _).
      congruence.
    + by rewrite (add_unchecked le m1' o (Some n) Hcheck) in Hadd.
Qed.

Lemma bounded_add (le : Coordinate.t → Coordinate.t → bool)
    (m m' : Map.t) (o : GameObject.t) (c : option Coordinate.t) :
  Coordinate.pointwise le →
  bounded m → Map.add le o c m = (Ok tt, m') → bounded m'.
Proof.
  intros Hle Hm Hadd.
  destruct (Map.check_placement le m o c) eqn:Hcheck.
  2:{ by rewrite (add_unchecked le m o c Hcheck) in Hadd. }
  destruct (add_checked le m o c Hcheck) as (m'' & Hadd' & Hsize & Hget).
  assert (m'' = m') as -> by congruence.
  intros c' o'. rewrite Hget. unfold in_bounds. rewrite Hsize.
  case_decide as Hin; [|apply Hm].
  intros _. destruct c as [a|]; [|done]. simpl in Hin.
  rewrite check_placement_true in Hcheck. destruct Hin as [Hx Hy].
  destruct (Hcheck 0 0) as (a' & [= <-] & Hbox & _); [lia..|].
  apply (box_test_pointwise le m o a Hle) in Hbox. lia.
Qed.

Lemma bounded_remove (le : Coordinate.t → Coordinate.t → bool)
    (m m' : Map.t) (c : Coordinate.t) (o : GameObject.t) :
  bounded m → Map.remove le c m = (Ok o, m') → bounded m'.
Proof.
  intros Hm Hrm.
  destruct (remove_cases le m c)
    as [(_ & Hr)|[(_ & _ & Hr)|(o' & m'' & _ & _ & Hr & Hsize & Hget)]];
    rewrite Hr in Hrm; try done. injection Hrm as <- <-.
  intros c' o''. rewrite Hget. unfold in_bounds. rewrite Hsize.
  case_decide; [done|apply Hm].
Qed.

(** X5.  An invariant of the grid, for the componentwise comparison: in
    every state reached from the empty grid of a given size by operations
    that return normally, the size is that size and every cell that holds an
    object is a cell of [[0, size-1] x [0, size-1]]. *)
Theorem reachable_bounded (le : Coordinate.t → Coordinate.t → bool)
    (size : Z) (m : Map.t) :
  Coordinate.pointwise le →
  reachable le size m →
  Map.get_size m = size ∧ bounded m.
Proof.
  intros Hle. induction 1 as [|m p m' _ [IHsize IH] Hstep].
  - split; [done|]. intros c o Hc. by rewrite get_init in Hc.
  - split.
    { rewrite <- IHsize, <- (perform_keeps_size le p m). by rewrite Hstep. }
    destruct p as [o c|c|o n]; simpl in Hstep.
    + by apply (bounded_add le m m' o c).
    + unfold mbind, M_bind in Hstep.
      destruct (Map.remove le c m) as [[o|e] m''] eqn:Hrm; [|done].
      injection Hstep as <-. by apply (bounded_remove le m m'' c o).
    + destruct (move_cases le m o n)
        as [(e & Hr & _)|(a & o' & m1 & m'' & _ & _ & _ & Hrm & Hadd & Hr)];
        rewrite Hr in Hstep; [done|]. injection Hstep as <-.
      apply (bounded_add le m1 m'' o (Some n)); [done| |done].
      by apply (bounded_remove le m m1 a o').
Qed.

Lemma reachable_bounded_witness :
  Map.get_size Scenario.grid4 = 4 ∧ bounded Scenario.grid4.
Proof.
  apply (reachable_bounded Coordinate.le_pointwise 4 Scenario.grid4).
  - intros a b. reflexivity.
  - apply (reachable_step _ _ (Map.__init__ 4)
             (Add Scenario.B (Some (Coordinate 0 0)))).
    + apply reachable_init.
    + vm_compute. reflexivity.
Defined.

(** ** How the operations compose *)

Lemma add_returns (le : Coordinate.t → Coordinate.t → bool)
    (m m' : Map.t) (o : GameObject.t) (c : option Coordinate.t) :
  Map.add le o c m = (Ok tt, m') →
  Map.check_placement le m o c = true
  ∧ Map.get_size m' = Map.get_size m
  ∧ ∀ c', Map.get m' c'
          = if decide (in_block_at c (GameObject.get_size o) c')
            then Some o else Map.get m c'.
Proof.
  intros Hadd. destruct (Map.check_placement le m o c) eqn:Hcheck.
  - destruct (add_checked le m o c Hcheck) as (m'' & Hadd' & Hm'').
    assert (m'' = m') as -> by congruence. done.
  - by rewrite (add_unchecked le m o c Hcheck) in Hadd.
Qed.

Lemma remove_returns (le : Coordinate.t → Coordinate.t → bool)
    (m m' : Map.t) (c : Coordinate.t) (o : GameObject.t) :
  Map.remove le c m = (Ok o, m') →
  remove_test le m c = true ∧ Map.get m c = Some o
  ∧ Map.get_size m' = Map.get_size m
  ∧ ∀ c', Map.get m' c'
          = if decide (in_block c (GameObject.get_size o) c')
            then None else Map.get m c'.
Proof.
  intros Hrm.
  destruct (remove_cases le m c)
    as [(_ & Hr)|[(_ & _ & Hr)|(o' & m'' & Ht & Hget & Hr & Hm'')]];
    rewrite Hr in Hrm; try done. by injection Hrm as <- <-.
Qed.

(** X6.  What a [move] that returns normally does, for an object that is
    found at the coordinate it records: the block anchored at the new
    coordinate holds the object, the rest of the block anchored at the
    recorded coordinate is empty, and every other cell is as before. *)
Theorem move_effect (le : Coordinate.t → Coordinate.t → bool)
    (m m' : Map.t) (o : GameObject.t) (a n : Coordinate.t) :
  GameObject.get_coordinate o = Some a →
  Map.get m a = Some o →
  Map.move le o n m = (Ok tt, m') →
  Map.get_size m' = Map.get_size m
  ∧ ∀ c, Map.get m' c
         = if decide (in_block n (GameObject.get_size o) c) then Some o
           else if decide (in_block a (GameObject.get_size o) c) then None
           else Map.get m c.
Proof.
  intros Ha Hget Hmove.
  destruct (move_cases le m o n)
    as [(e & Hr & _)|(a' & o' & m1 & m'' & Ha' & _ & _ & Hrm & Hadd & Hr)];
    rewrite Hr in Hmove; [done|]. injection Hmove as <-.
  assert (a' = a) as -> by congruence.
  apply remove_returns in Hrm as (_ & Hget' & Hsize1 & Hget1).
  assert (o' = o) as -> by congruence.
  apply add_returns in Hadd as (_ & Hsize2 & Hget2).
  split; [congruence|]. intros c. rewrite Hget2, Hget1. done.
Qed.

Lemma move_effect_witness :
  Map.get_size (Map.move Coordinate.le_pointwise Scenario.U (Coordinate 3 3)
                  Scenario.grid5).2 = Map.get_size Scenario.grid5
  ∧ ∀ c, Map.get (Map.move Coordinate.le_pointwise Scenario.U (Coordinate 3 3)
                    Scenario.grid5).2 c
         = if decide (in_block (Coordinate 3 3)
                        (GameObject.get_size Scenario.U) c)
           then Some Scenario.U
           else if decide (in_block (Coordinate 2 2)
                             (GameObject.get_size Scenario.U) c)
           then None
           else Map.get Scenario.grid5 c.
Proof.
  apply (move_effect Coordinate.le_pointwise Scenario.grid5 _ Scenario.U
           (Coordinate 2 2) (Coordinate 3 3)).
  - reflexivity.
  - reflexivity.
  - vm_compute. reflexivity.
Defined.

(** X7.  The round trip in the other direction, for the componentwise
    comparison: when every cell of the block anchored at [a] is a cell of
    the grid and holds the object (of positive size), [remove] at [a] and
    then [add] of the object at [a] both return normally and give the grid
    back. *)
Theorem remove_then_add_restores (le : Coordinate.t → Coordinate.t → bool)
    (m : Map.t) (o : GameObject.t) (a : Coordinate.t) :
  Coordinate.pointwise le →
  0 < GameObject.get_size o →
  (∀ c, in_block a (GameObject.get_size o) c →
        in_bounds m c ∧ Map.get m c = Some o) →
  ∃ m1, Map.remove le a m = (Ok o, m1)
        ∧ Map.add le o (Some a) m1 = (Ok tt, m).
Proof.
  intros Hle Hk Hblock.
  destruct (Hblock a) as [[Hax Hay] Ha]; [by apply in_block_anchor|].
  destruct (Hblock (Coordinate (get_x a + (GameObject.get_size o - 1))
                               (get_y a + (GameObject.get_size o - 1))))
    as [[Hbx Hby] _]; [apply in_block_offset; lia|]. simpl in Hbx, Hby.
  assert (remove_test le m a = true) as Htest.
  { apply (remove_test_pointwise le m a Hle). lia. }
  destruct (remove_occupied le m a o Htest Ha) as (m1 & Hrm & Hsize1 & Hget1).
  exists m1. split; [done|].
  assert (Map.check_placement le m1 o (Some a) = true) as Hcheck.
  { apply check_placement_true. intros x y Hx Hy. exists a. split; [done|].
    split.
    - apply (box_test_pointwise le m1 o a Hle). rewrite Hsize1. lia.
    - rewrite Hget1, decide_True; [done|]. by apply in_block_offset. }
  destruct (add_checked le m1 o (Some a) Hcheck) as (m2 & -> & Hsize2 & Hget2).
  f_equal. apply map_ext; [congruence|]. intros c. rewrite Hget2, Hget1.
  simpl. case_decide as Hin; [|done]. symmetry. by apply Hblock.
Qed.

Lemma remove_then_add_restores_witness :
  ∃ m1, Map.remove Coordinate.le_pointwise (Coordinate 0 0) Scenario.grid4
        = (Ok Scenario.B, m1)
        ∧ Map.add Coordinate.le_pointwise Scenario.B (Some (Coordinate 0 0)) m1
          = (Ok tt, Scenario.grid4).
Proof.
  apply (remove_then_add_restores Coordinate.le_pointwise Scenario.grid4
           Scenario.B (Coordinate 0 0)).
  - intros a b. reflexivity.
  - reflexivity.
  - intros [cx cy] [Hx Hy]. simpl in Hx, Hy.
    assert (cx = 0 ∨ cx = 1) as [-> | ->] by lia;
      (assert (cy = 0 ∨ cy = 1) as [-> | ->] by lia);
      (split; [unfold in_bounds; simpl; lia|reflexivity]).
Defined.

(** X8.  Two calls of [add] that return normally one after the other
    return normally in the other order as well, and give the same grid. *)
Theorem add_add_commute (le : Coordinate.t → Coordinate.t → bool)
    (m m1 m2 : Map.t) (o1 o2 : GameObject.t) (c1 c2 : option Coordinate.t) :
  Map.add le o1 c1 m = (Ok tt, m1) →
  Map.add le o2 c2 m1 = (Ok tt, m2) →
  ∃ m1', Map.add le o2 c2 m = (Ok tt, m1')
         ∧ Map.add le o1 c1 m1' = (Ok tt, m2).
Proof.
  intros Hadd1 Hadd2.
  apply add_returns in Hadd1 as (Hcheck1 & Hsize1 & Hget1).
  apply add_returns in Hadd2 as (Hcheck2 & Hsize2 & Hget2).
  assert (∀ c, in_block_at c1 (GameObject.get_size o1) c →
               ¬ in_block_at c2 (GameObject.get_size o2) c) as Hapart.
  { intros c Hin1 Hin2. destruct c2 as [a2|]; [|done].
    pose proof (check_placement_block_free le m1 o2 a2 c Hcheck2 Hin2) as Hnone.
    rewrite Hget1 in Hnone. by rewrite decide_True in Hnone. }
  assert (Map.check_placement le m o2 c2 = true) as Hcheck2'.
  { apply (check_placement_mono le m1); [done| |done].
    intros c. rewrite Hget1. by case_decide. }
  destruct (add_checked le m o2 c2 Hcheck2') as (m1' & Hadd2' & Hsize2' & Hget2').
  exists m1'. split; [done|].
  assert (Map.check_placement le m1' o1 c1 = true) as Hcheck1'.
  { rewrite check_placement_true in Hcheck1. apply check_placement_true.
    intros x y Hx Hy. destruct (Hcheck1 x y Hx Hy) as (a1 & -> & Hbox & Hnone).
    exists a1. split; [done|]. split.
    - unfold box_test in *. by rewrite Hsize2'.
    - rewrite Hget2', decide_False; [done|].
      apply Hapart. by apply in_block_offset. }
  destruct (add_checked le m1' o1 c1 Hcheck1') as (m2' & -> & Hsize1' & Hget1').
  f_equal. apply map_ext; [congruence|]. intros c.
  rewrite Hget1', Hget2', Hget2, Hget1.
  destruct (decide (in_block_at c1 (GameObject.get_size o1) c)) as [Hin1|];
    [|done].
  rewrite decide_False; [done|]. by apply Hapart.
Qed.

Lemma add_add_commute_witness :
  ∃ m1', Map.add Coordinate.le_pointwise Scenario.U (Some (Coordinate 3 3))
           (Map.__init__ 4) = (Ok tt, m1')
         ∧ Map.add Coordinate.le_pointwise Scenario.B (Some (Coordinate 0 0)) m1'
           = (Ok tt, Map.setitem (Coordinate 3 3) (Some Scenario.U)
                       Scenario.grid4).
Proof.
  apply (add_add_commute Coordinate.le_pointwise (Map.__init__ 4)
           Scenario.grid4 _ Scenario.B Scenario.U).
  - vm_compute. reflexivity.
  - vm_compute. reflexivity.
Defined.

(** X9.  Blocks stay apart: in a grid reached from the empty grid with
    [remove] called on anchors only, every cell that holds an object lies in
    the block of exactly one anchor, and that anchor is an anchor of this
    object. *)
Theorem reachable_by_anchors_one_block
    (le : Coordinate.t → Coordinate.t → bool) (size : Z) (m : Map.t)
    (P : gmap Coordinate.t GameObject.t) (c : Coordinate.t) (o : GameObject.t) :
  reachable_by_anchors le size m P →
  Map.get m c = Some o →
  ∃ a, P !! a = Some o
       ∧ in_block a (GameObject.get_size o) c
       ∧ ∀ a' o', P !! a' = Some o' →
                  in_block a' (GameObject.get_size o') c → a' = a.
Proof.
  intros Hreach Hget.
  destruct (reachable_by_anchors_anchors_of le size m P Hreach)
    as [_ Hcover Hapart].
  destruct (Hcover c o Hget) as (a & Ha & Hin). exists a.
  split; [done|]. split; [done|]. intros a' o' Ha' Hin'.
  by apply (Hapart a' o' a o c).
Qed.

Lemma reachable_by_anchors_one_block_witness :
  ∃ a, record_anchor Scenario.B (Some (Coordinate 0 0)) ∅ !! a = Some Scenario.B
       ∧ in_block a (GameObject.get_size Scenario.B) (Coordinate 1 1)
       ∧ ∀ a' o', record_anchor Scenario.B (Some (Coordinate 0 0)) ∅ !! a'
                  = Some o' →
                  in_block a' (GameObject.get_size o') (Coordinate 1 1) →
                  a' = a.
Proof.
  apply (reachable_by_anchors_one_block Coordinate.le_pointwise 4
           Scenario.grid4 _ (Coordinate 1 1) Scenario.B).
  - apply (by_anchors_add _ _ (Map.__init__ 4)).
    + apply by_anchors_init.
    + vm_compute. reflexivity.
  - reflexivity.
Defined.

(** X10.  After [remove] has returned an object of positive size, a second
    [remove] at the same coordinate raises the error of the empty cell and
    leaves the grid as it is. *)
Theorem remove_twice_raises (le : Coordinate.t → Coordinate.t → bool)
    (m m' : Map.t) (c : Coordinate.t) (o : GameObject.t) :
  Map.remove le c m = (Ok o, m') →
  0 < GameObject.get_size o →
  Map.remove le c m' = (Raise (ValueError msg_no_entity), m').
Proof.
  intros Hrm Hk. apply remove_returns in Hrm as (Htest & _ & Hsize & Hget).
  apply remove_empty.
  - unfold remove_test in *. by rewrite Hsize.
  - rewrite Hget, decide_True; [done|]. by apply in_block_anchor.
Qed.

Lemma remove_twice_raises_witness :
  Map.remove Coordinate.le_pointwise (Coordinate 1 1) Scenario.grid4_torn
  = (Raise (ValueError msg_no_entity), Scenario.grid4_torn).
Proof.
  apply (remove_twice_raises Coordinate.le_pointwise Scenario.grid4
           Scenario.grid4_torn (Coordinate 1 1) Scenario.B).
  - vm_compute. reflexivity.
  - reflexivity.
Defined.

(** * The queries *)

(** ** get_map_list *)

Lemma get_map_list_square (m : Map.t) :
  square (Z.to_nat (Map.get_size m)) (Map.get_map_list m)
  ∧ ∀ i j, (i < Z.to_nat (Map.get_size m))%nat →
           (j < Z.to_nat (Map.get_size m))%nat →
      entry (Map.get_map_list m) i j
      = Some (Map.get m (Coordinate (Z.of_nat i) (Z.of_nat j))).
Proof.
  unfold Map.get_map_list, square, entry, range. split; [split|].
  - by rewrite length_fmap, length_seqZ.
  - apply Forall_fmap, Forall_forall. intros i _. simpl.
    by rewrite length_fmap, length_seqZ.
  - intros i j Hi Hj.
    rewrite list_lookup_fmap, lookup_seqZ_lt by lia. simpl.
    by rewrite list_lookup_fmap, lookup_seqZ_lt by lia.
Qed.

(** X11.  [get_map_list] is a list of [size] lists of [size] entries (none
    when the size is not positive), and its entry [[i][j]] is what [get]
    answers for [Coordinate(i, j)]: the first index is the abscissa. *)
Theorem get_map_list_entries (m : Map.t) :
  square (Z.to_nat (Map.get_size m)) (Map.get_map_list m)
  ∧ ∀ i j, 0 ≤ i < Map.get_size m → 0 ≤ j < Map.get_size m →
      entry (Map.get_map_list m) (Z.to_nat i) (Z.to_nat j)
      = Some (Map.get m (Coordinate i j)).
Proof.
  destruct (get_map_list_square m) as [Hsq Hentry]. split; [done|].
  intros i j Hi Hj. rewrite Hentry by lia. by rewrite !Z2Nat.id by lia.
Qed.

(** ** get_map_from_to *)

Section Scan.

Variable self : Map.t.

Lemma lookup_keep_cell (x y : Z) (d : gmap Coordinate.t GameObject.t)
  (c : Coordinate.t) :
keep_cell self x y d !! c
= if decide (c = Coordinate x y) then Map.get self c ∪ d !! c else d !! c.
Proof.
unfold keep_cell. destruct (decide (c = Coordinate x y)) as [->|Hne].
- destruct (Map.get self (Coordinate x y)) as [obj|].
  + rewrite lookup_insert_eq. by destruct (d !! Coordinate x y).
  + by destruct (d !! Coordinate x y).
- destruct (Map.get self (Coordinate x y)) as [obj|]; [|done].
  by rewrite lookup_insert_ne.
Qed.

Lemma lookup_keep_row (x : Z) (ys : list Z)
  (d : gmap Coordinate.t GameObject.t) (c : Coordinate.t) :
for_loop ys (keep_cell self x) d !! c
= if decide (get_x c = x ∧ get_y c ∈ ys)
  then Map.get self c ∪ d !! c else d !! c.
Proof.
unfold for_loop. revert d.
induction ys as [|y ys IH]; intros d; cbn [foldl].
- rewrite decide_False; [done|]. intros [_ H]. by apply elem_of_nil in H.
- rewrite IH, lookup_keep_cell.
  destruct (decide (c = Coordinate x y)) as [->|Hne].
  + rewrite (decide_True (P := _ ∧ _ ∈ y :: ys)).
    2:{ simpl. split; [done|]. apply list_elem_of_here. }
    case_decide; [|done].
    by destruct (Map.get self (Coordinate x y)), (d !! Coordinate x y).
  + apply decide_ext. rewrite elem_of_cons.
    split; [by intros [-> ?]; auto|]. intros [Hx [Hy|Hy]]; [|done].
    exfalso. apply Hne. destruct c. simpl in *. by subst.
Qed.

Lemma lookup_keep_rows (xs ys : list Z)
  (d : gmap Coordinate.t GameObject.t) (c : Coordinate.t) :
for_loop xs (λ x, for_loop ys (keep_cell self x)) d !! c
= if decide (get_x c ∈ xs ∧ get_y c ∈ ys)
  then Map.get self c ∪ d !! c else d !! c.
Proof.
unfold for_loop at 1. revert d.
induction xs as [|x xs IH]; intros d; cbn [foldl].
- rewrite decide_False; [done|]. intros [H _]. by apply elem_of_nil in H.
- rewrite IH, lookup_keep_row.
  destruct (decide (get_x c = x ∧ get_y c ∈ ys)) as [[Hx Hy]|Hn].
  + rewrite (decide_True (P := _ ∈ x :: xs ∧ _)).
    2:{ split; [|done]. rewrite Hx. apply list_elem_of_here. }
    case_decide; [|done].
    by destruct (Map.get self c), (d !! c).
  + apply decide_ext. rewrite elem_of_cons.
    split; [by intros [? ?]; auto|]. intros [[Hx|Hx] Hy]; [|done].
    exfalso. by apply Hn.
Qed.

Lemma get_map_from_to_loops (from_coord to_coord : Coordinate.t) :
Map.get_map_from_to self from_coord to_coord
= for_loop (range_from (get_x from_coord) (get_x to_coord + 1)) (λ x,
    for_loop (range_from (get_y from_coord) (get_y to_coord + 1))
      (keep_cell self x)) ∅.
Proof.
unfold Map.get_map_from_to.
rewrite (for_each_ext _ _
           (λ x, for_each (range_from (get_y from_coord) (get_y to_coord + 1))
                   (λ y, modify (keep_cell self x y)))).
- by rewrite for_each_nested_modify.
- intros x s _. apply for_each_ext. intros y s' _.
  unfold keep_cell. by destruct (Map.get self _).
Qed.

End Scan.

Lemma lookup_get_map_from_to (m : Map.t) (from_coord to_coord c : Coordinate.t) :
  Map.get_map_from_to m from_coord to_coord !! c
  = if decide (in_rectangle from_coord to_coord c) then Map.get m c else None.
Proof.
  rewrite get_map_from_to_loops, lookup_keep_rows, lookup_empty.
  rewrite (decide_ext _ (in_rectangle from_coord to_coord c)).
  - case_decide; [|done]. by destruct (Map.get m c).
  - unfold in_rectangle. rewrite !elem_of_range_from. lia.
Qed.

(** X12.  [get_map_from_to] returns the cells of the closed rectangle that
    hold an object, under their own coordinates, and nothing else: a cell
    is in the dictionary exactly when it is in the rectangle and [get]
    answers an object for it, and it is bound to that object. *)
Theorem get_map_from_to_lookup (m : Map.t) (from_coord to_coord c : Coordinate.t)
    (o : GameObject.t) :
  Map.get_map_from_to m from_coord to_coord !! c = Some o
  ↔ in_rectangle from_coord to_coord c ∧ Map.get m c = Some o.
Proof.
  rewrite lookup_get_map_from_to. case_decide as Hin.
  - split; [done|]. by intros [_ ?].
  - split; [done|]. by intros [? _].
Qed.

(** X13.  [get_from_to] and [get_map_from_to] scan the same cells: the map
    that the first returns reads at [(x, y)] what the dictionary that the
    second returns holds at [(x + from.x, y + from.y)]. *)
Theorem get_from_to_is_shifted_scan (m : Map.t)
    (from_coord to_coord c : Coordinate.t) :
  Map.get (Map.get_from_to m from_coord to_coord) c
  = Map.get_map_from_to m from_coord to_coord
      !! Coordinate (get_x c + get_x from_coord) (get_y c + get_y from_coord).
Proof.
  rewrite get_get_from_to. fold (source from_coord c).
  by rewrite lookup_get_map_from_to.
Qed.

(** X14.  The size of the map that [get_from_to] returns is one short of the
    side of the rectangle: when [from <= to] and the cell of [to] holds an
    object, the new map holds it at [to - from], which is not a cell of
    [[0, size-1] x [0, size-1]] for the size of the new map. *)
Theorem get_from_to_corner_outside (m : Map.t)
    (from_coord to_coord : Coordinate.t) (o : GameObject.t) :
  get_x from_coord ≤ get_x to_coord →
  get_y from_coord ≤ get_y to_coord →
  Map.get m to_coord = Some o →
  Map.get (Map.get_from_to m from_coord to_coord)
    (Coordinate (get_x to_coord - get_x from_coord)
                (get_y to_coord - get_y from_coord)) = Some o
  ∧ ¬ in_bounds (Map.get_from_to m from_coord to_coord)
        (Coordinate (get_x to_coord - get_x from_coord)
                    (get_y to_coord - get_y from_coord)).
Proof.
  intros Hx Hy Hget. split.
  - rewrite get_get_from_to. unfold source. simpl.
    replace (Coordinate _ _) with to_coord
      by (destruct to_coord; simpl; f_equal; lia).
    rewrite decide_True; [done|]. unfold in_rectangle. lia.
  - unfold in_bounds. rewrite get_from_to_loops, size_copy_rows. simpl.
    unfold Map.get_size. simpl. lia.
Qed.

Lemma get_from_to_corner_outside_witness :
  Map.get (Map.get_from_to Scenario.grid5 (Coordinate 1 1) (Coordinate 2 2))
    (Coordinate (2 - 1) (2 - 1)) = Some Scenario.U
  ∧ ¬ in_bounds
        (Map.get_from_to Scenario.grid5 (Coordinate 1 1) (Coordinate 2 2))
        (Coordinate (2 - 1) (2 - 1)).
Proof.
  apply (get_from_to_corner_outside Scenario.grid5 (Coordinate 1 1)
           (Coordinate 2 2) Scenario.U).
  - simpl. lia.
  - simpl. lia.
  - reflexivity.
Defined.

Lemma bounded_init (size : Z) : bounded (Map.__init__ size).
Proof. intros c o Hc. by rewrite get_init in Hc. Qed.

(** X15.  Asked for the whole grid, from (0,0) to (size-1, size-1),
    [get_map_from_to] returns a dictionary that reads at every coordinate
    what [get] answers for it, provided that every cell that holds an
    object is a cell of the grid. *)
Theorem get_map_from_to_whole_grid (m : Map.t) (c : Coordinate.t) :
  bounded m →
  Map.get_map_from_to m (Coordinate 0 0)
    (Coordinate (Map.get_size m - 1) (Map.get_size m - 1)) !! c
  = Map.get m c.
Proof.
  intros Hm. rewrite lookup_get_map_from_to.
  case_decide as Hin; [done|].
  destruct (Map.get m c) as [o|] eqn:Hc; [|done]. exfalso. apply Hin.
  destruct (Hm c o Hc) as [Hx Hy]. unfold in_rectangle. simpl. lia.
Qed.

Lemma get_map_from_to_whole_grid_witness :
  Map.get_map_from_to Scenario.grid4 (Coordinate 0 0)
    (Coordinate (Map.get_size Scenario.grid4 - 1)
                (Map.get_size Scenario.grid4 - 1)) !! Coordinate 1 1
  = Map.get Scenario.grid4 (Coordinate 1 1).
Proof.
  apply (get_map_from_to_whole_grid Scenario.grid4 (Coordinate 1 1)).
  apply (bounded_add Coordinate.le_pointwise (Map.__init__ 4) Scenario.grid4
           Scenario.B (Some (Coordinate 0 0))).
  - intros a b. reflexivity.
  - apply bounded_init.
  - vm_compute. reflexivity.
Defined.

(** ** get_map_list_from_to *)

Lemma index_is_Some (n : nat) (i : Z) :
  is_Some (index n i) ↔ - Z.of_nat n ≤ i < Z.of_nat n.
Proof.
  unfold index. repeat case_bool_decide.
  - split; [lia|]. by eexists.
  - split; [lia|]. by eexists.
  - split; [by intros [? ?]|lia].
Qed.

Lemma index_lt (n : nat) (i : Z) (k : nat) : index n i = Some k → (k < n)%nat.
Proof.
  unfold index. repeat case_bool_decide; intros [= <-]; lia.
Qed.

Lemma index_in_range (n : nat) (i : Z) :
  0 ≤ i < Z.of_nat n → index n i = Some (Z.to_nat i).
Proof. intros Hi. unfold index. by rewrite bool_decide_true. Qed.

Lemma for_each_index_Some {A S} (I : S → Prop) (l : list A)
    (body : A → S → option S) (s : S) :
  I s →
  (∀ a s, a ∈ l → I s → ∃ s', body a s = Some s' ∧ I s') →
  ∃ s', for_each_index l body s = Some s' ∧ I s'.
Proof.
  revert s. induction l as [|a l IH]; intros s Hs Hbody; simpl.
  - by exists s.
  - destruct (Hbody a s) as (s1 & -> & Hs1); [apply list_elem_of_here|done|].
    simpl. apply IH; [done|]. intros b s2 Hb. apply Hbody.
    by apply list_elem_of_further.
Qed.

Lemma for_each_index_None {A S} (I : S → Prop) (l : list A)
    (body : A → S → option S) (s : S) (a : A) :
  I s → a ∈ l →
  (∀ b s s', I s → body b s = Some s' → I s') →
  (∀ s, I s → body a s = None) →
  for_each_index l body s = None.
Proof.
  intros Hs Ha Hkeep Hfail. revert s Hs.
  induction l as [|b l IH]; intros s Hs; [by apply elem_of_nil in Ha|].
  simpl. apply elem_of_cons in Ha as [<-|Ha].
  - by rewrite Hfail.
  - destruct (body b s) as [s1|] eqn:Hb; [|done]. simpl.
    apply IH; [done|]. by apply (Hkeep b s).
Qed.

Section SquareGrid.

Variable n : nat.

Lemma square_entry (g : list (list (option GameObject.t))) (i j : nat) :
square n g → (i < n)%nat → (j < n)%nat → is_Some (entry g i j).
Proof.
intros [Hlen Hrows] Hi Hj. unfold entry.
destruct (lookup_lt_is_Some_2 g i) as [row Hrow]; [lia|]. rewrite Hrow. simpl.
apply lookup_lt_is_Some_2.
rewrite Forall_forall in Hrows. rewrite (Hrows row); [done|].
by apply list_elem_of_lookup_2 with i.
Qed.

(** [result[x][y] = value] on a square grid, for two indices that denote
  positions. *)
Lemma setitem2_square (g : list (list (option GameObject.t))) (x y : Z)
  (i j : nat) (v : option GameObject.t) :
square n g → index n x = Some i → index n y = Some j →
∃ g', Map.setitem2 x y v g = Some g'
      ∧ square n g'
      ∧ ∀ i' j', (i' < n)%nat → (j' < n)%nat →
          entry g' i' j'
          = if decide (i' = i ∧ j' = j) then Some v else entry g i' j'.
Proof.
intros [Hlen Hrows] Hx Hy. pose proof (index_lt n x i Hx) as Hi.
pose proof (index_lt n y j Hy) as Hj.
destruct (lookup_lt_is_Some_2 g i) as [row Hrow]; [lia|].
assert (length row = n) as Hlrow.
{ rewrite Forall_forall in Hrows. apply Hrows.
  by apply list_elem_of_lookup_2 with i. }
exists (<[i := <[j := v]> row]> g). split; [|split].
- unfold Map.setitem2. rewrite Hlen, Hx. simpl. rewrite Hrow. simpl.
  by rewrite Hlrow, Hy.
- split; [by rewrite length_insert|].
  apply Forall_insert; [done|]. by rewrite length_insert.
- intros i' j' Hi' Hj'. unfold entry.
  destruct (decide (i' = i)) as [->|Hne].
  + rewrite list_lookup_insert_eq by lia. simpl. rewrite Hrow. simpl.
    destruct (decide (j' = j)) as [->|Hnej].
    * rewrite decide_True by done. apply list_lookup_insert_eq. lia.
    * rewrite decide_False by (by intros [_ ?]).
      by apply list_lookup_insert_ne.
  + rewrite decide_False by (by intros [? _]).
    by rewrite list_lookup_insert_ne.
Qed.

(** The same assignment when one of the two indices denotes no position. *)
Lemma setitem2_None (g : list (list (option GameObject.t))) (x y : Z)
  (v : option GameObject.t) :
square n g → index n x = None ∨ index n y = None → Map.setitem2 x y v g = None.
Proof.
intros [Hlen Hrows] Hxy. unfold Map.setitem2. rewrite Hlen.
destruct (index n x) as [i|] eqn:Hx; [|done]. simpl.
destruct Hxy as [?|Hy]; [done|].
destruct (g !! i) as [row|] eqn:Hrow; [|done]. simpl.
rewrite Forall_forall in Hrows. rewrite (Hrows row), Hy; [done|].
by apply list_elem_of_lookup_2 with i.
Qed.

Lemma setitem2_keeps_square (g g' : list (list (option GameObject.t)))
  (x y : Z) (v : option GameObject.t) :
square n g → Map.setitem2 x y v g = Some g' → square n g'.
Proof.
intros Hg Hset.
destruct (index n x) as [i|] eqn:Hx;
  [|by rewrite setitem2_None in Hset by auto].
destruct (index n y) as [j|] eqn:Hy;
  [|by rewrite setitem2_None in Hset by auto].
destruct (setitem2_square g x y i j v Hg Hx Hy) as (g'' & Hset' & Hg'' & _).
congruence.
Qed.

Variable self : Map.t.

Lemma scan_row_keeps_square (g g' : list (list (option GameObject.t)))
  (x : Z) (ys : list Z) :
square n g →
for_each_index ys (λ y, Map.setitem2 x y (Map.get self (Coordinate x y))) g
= Some g' →
square n g'.
Proof.
revert g. induction ys as [|y ys IH]; intros g Hg; simpl.
- by intros [= <-].
- destruct (Map.setitem2 x y _ g) as [g1|] eqn:Hset; [|done]. simpl.
  apply IH. by apply (setitem2_keeps_square g g1 x y (Map.get self (Coordinate x y))).
Qed.

(** The inner loop of [get_map_list_from_to] on positions of the grid. *)
Lemma scan_row (g : list (list (option GameObject.t))) (x : Z) (ys : list Z) :
square n g → 0 ≤ x < Z.of_nat n →
Forall (λ y, 0 ≤ y < Z.of_nat n) ys →
∃ g', for_each_index ys
        (λ y, Map.setitem2 x y (Map.get self (Coordinate x y))) g = Some g'
      ∧ square n g'
      ∧ ∀ i j, (i < n)%nat → (j < n)%nat →
          entry g' i j
          = if decide (Z.of_nat i = x ∧ Z.of_nat j ∈ ys)
            then Some (Map.get self (Coordinate (Z.of_nat i) (Z.of_nat j)))
            else entry g i j.
Proof.
intros Hg Hx. revert g Hg.
induction ys as [|y ys IH]; intros g Hg Hys; simpl.
- exists g. split; [done|]. split; [done|]. intros i j _ _.
  rewrite decide_False; [done|]. intros [_ H]. by apply elem_of_nil in H.
- apply Forall_cons in Hys as [Hy Hys].
  destruct (setitem2_square g x y (Z.to_nat x) (Z.to_nat y)
              (Map.get self (Coordinate x y)) Hg)
    as (g1 & -> & Hg1 & Hentry1); [by apply index_in_range..|].
  simpl. destruct (IH g1 Hg1 Hys) as (g' & -> & Hg' & Hentry').
  exists g'. split; [done|]. split; [done|]. intros i j Hi Hj.
  rewrite Hentry', Hentry1 by done.
  destruct (decide (Z.of_nat i = x ∧ Z.of_nat j ∈ ys)) as [[Hix Hjy]|Hn].
  + rewrite decide_True; [done|]. split; [done|].
    by apply list_elem_of_further.
  + destruct (decide (i = Z.to_nat x ∧ j = Z.to_nat y)) as [[-> ->]|Hn'].
    * rewrite !Z2Nat.id by lia. rewrite decide_True; [done|].
      split; [done|]. apply list_elem_of_here.
    * rewrite decide_False; [done|]. intros [Hix Hjy].
      apply elem_of_cons in Hjy as [Hjy|Hjy]; [|by apply Hn].
      apply Hn'. split; lia.
Qed.

(** The two loops of [get_map_list_from_to] on positions of the grid. *)
Lemma scan_rows (g : list (list (option GameObject.t))) (xs ys : list Z) :
square n g →
Forall (λ x, 0 ≤ x < Z.of_nat n) xs →
Forall (λ y, 0 ≤ y < Z.of_nat n) ys →
∃ g', for_each_index xs (λ x,
        for_each_index ys
          (λ y, Map.setitem2 x y (Map.get self (Coordinate x y)))) g = Some g'
      ∧ square n g'
      ∧ ∀ i j, (i < n)%nat → (j < n)%nat →
          entry g' i j
          = if decide (Z.of_nat i ∈ xs ∧ Z.of_nat j ∈ ys)
            then Some (Map.get self (Coordinate (Z.of_nat i) (Z.of_nat j)))
            else entry g i j.
Proof.
intros Hg Hxs Hys. revert g Hg.
induction xs as [|x xs IH]; intros g Hg; cbn [for_each_index].
- exists g. split; [done|]. split; [done|]. intros i j _ _.
  rewrite decide_False; [done|]. intros [H _]. by apply elem_of_nil in H.
- apply Forall_cons in Hxs as [Hx Hxs].
  destruct (scan_row g x ys Hg Hx Hys) as (g1 & -> & Hg1 & Hentry1).
  simpl. destruct (IH Hxs g1 Hg1) as (g' & -> & Hg' & Hentry').
  exists g'. split; [done|]. split; [done|]. intros i j Hi Hj.
  rewrite Hentry', Hentry1 by done.
  destruct (decide (Z.of_nat i ∈ xs ∧ Z.of_nat j ∈ ys)) as [[Hix Hjy]|Hn].
  + rewrite decide_True; [done|]. split; [|done].
    by apply list_elem_of_further.
  + destruct (decide (Z.of_nat i = x ∧ Z.of_nat j ∈ ys)) as [[Hix Hjy]|Hn'].
    * rewrite decide_True; [done|]. split; [|done]. rewrite Hix.
      apply list_elem_of_here.
    * rewrite decide_False; [done|]. intros [Hix Hjy].
      apply elem_of_cons in Hix as [Hix|Hix]; [|by apply Hn].
      by apply Hn'.
Qed.

End SquareGrid.

Lemma square_init (size : Z) :
  square (Z.to_nat size) ((λ _, (λ _, None) <$> range size) <$> range size)
  ∧ ∀ i j, (i < Z.to_nat size)%nat → (j < Z.to_nat size)%nat →
      entry ((λ _, (λ _, None) <$> range size) <$> range size) i j
      = Some None.
Proof.
  unfold square, entry, range. split; [split|].
  - by rewrite length_fmap, length_seqZ.
  - apply Forall_fmap, Forall_forall. intros i _. simpl.
    by rewrite length_fmap, length_seqZ.
  - intros i j Hi Hj.
    rewrite list_lookup_fmap, lookup_seqZ_lt by lia. simpl.
    by rewrite list_lookup_fmap, lookup_seqZ_lt by lia.
Qed.

Lemma get_map_list_from_to_scan (m : Map.t)
    (from_coord to_coord : Coordinate.t) :
  0 ≤ get_x from_coord → get_x to_coord < Map.get_size m →
  0 ≤ get_y from_coord → get_y to_coord < Map.get_size m →
  ∃ result,
    Map.get_map_list_from_to m from_coord to_coord = Some result
    ∧ square (Z.to_nat (Map.get_size m)) result
    ∧ ∀ i j, (i < Z.to_nat (Map.get_size m))%nat →
             (j < Z.to_nat (Map.get_size m))%nat →
        entry result i j
        = Some (if decide (in_rectangle from_coord to_coord
                             (Coordinate (Z.of_nat i) (Z.of_nat j)))
                then Map.get m (Coordinate (Z.of_nat i) (Z.of_nat j))
                else None).
Proof.
  intros Hfx Htx Hfy Hty. unfold Map.get_map_list_from_to. cbv zeta.
  destruct (square_init (Map.get_size m)) as [Hsq Hinit].
  destruct (scan_rows (Z.to_nat (Map.get_size m)) m _
              (range_from (get_x from_coord) (get_x to_coord + 1))
              (range_from (get_y from_coord) (get_y to_coord + 1)) Hsq)
    as (g' & Hrun & Hg' & Hentry).
  { apply Forall_forall. intros x. rewrite elem_of_range_from. lia. }
  { apply Forall_forall. intros y. rewrite elem_of_range_from. lia. }
  exists g'. split; [done|]. split; [done|]. intros i j Hi Hj.
  rewrite Hentry, Hinit by lia.
  rewrite (decide_ext _ (in_rectangle from_coord to_coord
                           (Coordinate (Z.of_nat i) (Z.of_nat j)))).
  - by case_decide.
  - unfold in_rectangle. rewrite !elem_of_range_from. simpl. lia.
Qed.

(** X16.  When the rectangle lies in the grid, [get_map_list_from_to]
    returns a list of [size] lists of [size] entries whose entry [[x][y]] is
    what [get] answers for [Coordinate(x, y)] inside the rectangle, and
    [None] outside of it. *)
Theorem get_map_list_from_to_in_grid (m : Map.t)
    (from_coord to_coord : Coordinate.t) :
  0 ≤ get_x from_coord → get_x to_coord < Map.get_size m →
  0 ≤ get_y from_coord → get_y to_coord < Map.get_size m →
  ∃ result,
    Map.get_map_list_from_to m from_coord to_coord = Some result
    ∧ square (Z.to_nat (Map.get_size m)) result
    ∧ ∀ x y, 0 ≤ x < Map.get_size m → 0 ≤ y < Map.get_size m →
        entry result (Z.to_nat x) (Z.to_nat y)
        = Some (if decide (in_rectangle from_coord to_coord (Coordinate x y))
                then Map.get m (Coordinate x y) else None).
Proof.
  intros Hfx Htx Hfy Hty.
  destruct (get_map_list_from_to_scan m from_coord to_coord Hfx Htx Hfy Hty)
    as (result & Hrun & Hsq & Hentry).
  exists result. split; [done|]. split; [done|]. intros x y Hx Hy.
  rewrite Hentry by lia. by rewrite !Z2Nat.id by lia.
Qed.

Lemma get_map_list_from_to_in_grid_witness :
  ∃ result,
    Map.get_map_list_from_to Scenario.grid5 (Coordinate 1 1) (Coordinate 2 3)
    = Some result
    ∧ square (Z.to_nat (Map.get_size Scenario.grid5)) result
    ∧ ∀ x y, 0 ≤ x < Map.get_size Scenario.grid5 →
             0 ≤ y < Map.get_size Scenario.grid5 →
        entry result (Z.to_nat x) (Z.to_nat y)
        = Some (if decide (in_rectangle (Coordinate 1 1) (Coordinate 2 3)
                             (Coordinate x y))
                then Map.get Scenario.grid5 (Coordinate x y) else None).
Proof.
  apply (get_map_list_from_to_in_grid Scenario.grid5 (Coordinate 1 1)
           (Coordinate 2 3)); simpl; lia.
Defined.

(** X17.  [get_map_list_from_to] raises [IndexError] as soon as a rectangle
    that has a cell reaches an index that a list of [size] entries does not
    have: one from [size] on, or one below [-size]. *)
Theorem get_map_list_from_to_index_error (m : Map.t)
    (from_coord to_coord : Coordinate.t) :
  get_x from_coord ≤ get_x to_coord →
  get_y from_coord ≤ get_y to_coord →
  ¬ (- Z.max 0 (Map.get_size m) ≤ get_x from_coord
     ∧ get_x to_coord < Z.max 0 (Map.get_size m)
     ∧ - Z.max 0 (Map.get_size m) ≤ get_y from_coord
     ∧ get_y to_coord < Z.max 0 (Map.get_size m)) →
  Map.get_map_list_from_to m from_coord to_coord = None.
Proof.
  intros Hx Hy Hout. unfold Map.get_map_list_from_to. cbv zeta.
  set (n := Z.to_nat (Map.get_size m)).
  set (xs := range_from (get_x from_coord) (get_x to_coord + 1)).
  set (ys := range_from (get_y from_coord) (get_y to_coord + 1)).
  destruct (square_init (Map.get_size m)) as [Hsq _]. fold n in Hsq.
  assert (Z.of_nat n = Z.max 0 (Map.get_size m)) as Hn by (unfold n; lia).
  assert (∃ x y, x ∈ xs ∧ y ∈ ys ∧ (index n x = None ∨ index n y = None))
    as (x & y & Hxin & Hyin & Hbad).
  { assert (∀ i, index n i = None ↔ ¬ (- Z.of_nat n ≤ i < Z.of_nat n)) as Hnone.
    { intros i. rewrite <- index_is_Some, <- eq_None_not_Some. done. }
    setoid_rewrite Hnone. unfold xs, ys. setoid_rewrite elem_of_range_from.
    destruct (decide (- Z.of_nat n ≤ get_x from_coord)) as [?|?];
      [|exists (get_x from_coord), (get_y from_coord); lia].
    destruct (decide (get_x to_coord < Z.of_nat n)) as [?|?];
      [|exists (get_x to_coord), (get_y from_coord); lia].
    destruct (decide (- Z.of_nat n ≤ get_y from_coord)) as [?|?];
      [|exists (get_x from_coord), (get_y from_coord); lia].
    exists (get_x from_coord), (get_y to_coord). lia. }
  apply (for_each_index_None (square n) xs _ _ x); [done|done|..].
  - intros b s s' Hs. by apply scan_row_keeps_square.
  - intros s Hs.
    apply (for_each_index_None (square n) ys _ _ y); [done|done|..].
    + intros b s1 s2 Hs1. by apply setitem2_keeps_square.
    + intros s1 Hs1. by apply (setitem2_None n).
Qed.

Lemma get_map_list_from_to_index_error_witness :
  Map.get_map_list_from_to Scenario.grid5 (Coordinate 1 1) (Coordinate 5 2)
  = None.
Proof.
  apply (get_map_list_from_to_index_error Scenario.grid5 (Coordinate 1 1)
           (Coordinate 5 2)); simpl; lia.
Defined.

Lemma square_ext (n : nat) (g1 g2 : list (list (option GameObject.t))) :
  square n g1 → square n g2 →
  (∀ i j, (i < n)%nat → (j < n)%nat → entry g1 i j = entry g2 i j) →
  g1 = g2.
Proof.
  intros [Hl1 Hr1] [Hl2 Hr2] Hentry. apply list_eq. intros i.
  destruct (decide (i < n)%nat) as [Hi|Hi].
  2:{ by rewrite !lookup_ge_None_2 by lia. }
  destruct (lookup_lt_is_Some_2 g1 i) as [r1 H1]; [lia|].
  destruct (lookup_lt_is_Some_2 g2 i) as [r2 H2]; [lia|].
  rewrite H1, H2. f_equal.
  rewrite Forall_forall in Hr1, Hr2.
  assert (length r1 = n) as Hn1 by (by apply Hr1, list_elem_of_lookup_2 with i).
  assert (length r2 = n) as Hn2 by (by apply Hr2, list_elem_of_lookup_2 with i).
  apply list_eq. intros j. destruct (decide (j < n)%nat) as [Hj|Hj].
  2:{ by rewrite !lookup_ge_None_2 by lia. }
  specialize (Hentry i j Hi Hj). unfold entry in Hentry.
  by rewrite H1, H2 in Hentry.
Qed.

(** X18.  Asked for the whole grid, from (0,0) to (size-1, size-1),
    [get_map_list_from_to] returns the list that [get_map_list] returns. *)
Theorem get_map_list_from_to_whole_grid (m : Map.t) :
  Map.get_map_list_from_to m (Coordinate 0 0)
    (Coordinate (Map.get_size m - 1) (Map.get_size m - 1))
  = Some (Map.get_map_list m).
Proof.
  destruct (get_map_list_from_to_scan m (Coordinate 0 0)
              (Coordinate (Map.get_size m - 1) (Map.get_size m - 1)))
    as (result & -> & Hsq & Hentry); [simpl; lia..|].
  f_equal. destruct (get_map_list_square m) as [Hsq' Hentry'].
  apply (square_ext (Z.to_nat (Map.get_size m))); [done..|].
  intros i j Hi Hj. rewrite Hentry, Hentry' by done.
  rewrite decide_True; [done|]. unfold in_rectangle. simpl. lia.
Qed.

(** ** __force_move *)

Lemma force_move_run (m : Map.t) (o : GameObject.t) (a n : Coordinate.t) :
  GameObject.get_coordinate o = Some a →
  Map.__force_move o n m
  = (Ok tt, Map.setitem n (Some o) (Map.setitem a None m)).
Proof. intros Ha. unfold Map.__force_move. by rewrite Ha. Qed.

(** X19.  For an object of size 1 that is found at the coordinate it
    records, [__force_move] does what [move] does whenever [move] returns
    normally: the forced variant differs by its missing checks only. *)
Theorem force_move_agrees_with_move (le : Coordinate.t → Coordinate.t → bool)
    (m m' : Map.t) (o : GameObject.t) (a n : Coordinate.t) :
  GameObject.get_coordinate o = Some a →
  Map.get m a = Some o →
  GameObject.get_size o = 1 →
  Map.move le o n m = (Ok tt, m') →
  Map.__force_move o n m = (Ok tt, m').
Proof.
  intros Ha Hget Hk Hmove. rewrite (force_move_run m o a n Ha). f_equal.
  destruct (move_cases le m o n)
    as [(e & Hr & _)|(a' & o' & m1 & m'' & Ha' & _ & _ & Hrm & Hadd & Hr)];
    rewrite Hr in Hmove; [done|]. injection Hmove as <-.
  assert (a' = a) as -> by congruence.
  apply remove_returns in Hrm as (_ & Hget' & Hsize1 & Hget1).
  assert (o' = o) as -> by congruence.
  apply add_returns in Hadd as (_ & Hsize2 & Hget2).
  apply map_ext.
  - rewrite !size_setitem. congruence.
  - intros c. rewrite Hget2, Hget1, !get_setitem, Hk. simpl.
    rewrite (decide_ext (in_block n 1 c) (n = c)).
    2:{ unfold in_block. destruct n, c. simpl. split; [intros ?; f_equal; lia|].
        intros [= -> ->]. lia. }
    case_decide; [done|].
    apply decide_ext. unfold in_block. destruct a, c. simpl.
    split; [intros [= -> ->]; lia|]. intros ?. f_equal; lia.
Qed.

Lemma force_move_agrees_with_move_witness :
  Map.__force_move Scenario.U (Coordinate 3 3) Scenario.grid5
  = (Ok tt, (Map.move Coordinate.le_pointwise Scenario.U (Coordinate 3 3)
               Scenario.grid5).2).
Proof.
  apply (force_move_agrees_with_move Coordinate.le_pointwise Scenario.grid5 _
           Scenario.U (Coordinate 2 2) (Coordinate 3 3)).
  - reflexivity.
  - reflexivity.
  - reflexivity.
  - vm_compute. reflexivity.
Defined.

(** ** tabler_str *)

Lemma last_range (n : Z) : 0 < n → last (range n) = Some (n - 1).
Proof.
  intros Hn. unfold range. replace n with ((n - 1) + 1) at 1 by lia.
  rewrite seqZ_app by lia. rewrite (seqZ_cons _ 1) by lia.
  rewrite (seqZ_nil _ (Z.pred 1)) by lia.
  rewrite last_snoc. f_equal.
Qed.

Lemma tabler_inner_loop (cell : Z → string) (xs : list Z)
    (row : list string) (x0 : option Z) :
  for_loop xs (λ x '(row, _), (row ++ [cell x], Some x)) (row, x0)
  = (row ++ (cell <$> xs), from_option Some x0 (last xs)).
Proof.
  unfold for_loop. revert row x0.
  induction xs as [|x xs IH]; intros row x0; cbn [foldl].
  - by rewrite app_nil_r.
  - rewrite IH, last_cons, fmap_cons, <- app_assoc. simpl.
    by destruct (last xs).
Qed.

Lemma tabler_outer_loop (m : Map.t) (ys : list Z) (rows : list string)
    (x0 : option Z) :
  0 < Map.get_size m →
  ∃ x1,
    for_each_index ys (λ y '(rows, x),
      let '(row, x) :=
        for_loop (range (Map.get_size m))
          (λ x '(row, _), (row ++ [Map.tabler_cell m x y], Some x))
          ([], x) in
      let rows := rows ++ ["│" +:+ String.concat "│" row +:+ "│"] in
      x_read ← x;
      let rows :=
        if bool_decide (x_read < Map.get_size m - 1)
        then rows ++ [Map.middle_line (Map.get_size m)]
        else rows in
      Some (rows, x))
      (rows, x0)
    = Some (rows ++ (tabler_row m <$> ys), x1).
Proof.
  intros Hpos. revert rows x0.
  induction ys as [|y ys IH]; intros rows x0; cbn [for_each_index].
  - exists x0. by rewrite app_nil_r.
  - rewrite (tabler_inner_loop (λ x, Map.tabler_cell m x y)).
    rewrite last_range by done. simpl.
    rewrite bool_decide_false by lia.
    destruct (IH (rows ++ [tabler_row m y]) (Some (Map.get_size m - 1)))
      as (x1 & Hrun).
    exists x1. unfold tabler_row in Hrun at 1. rewrite Hrun.
    by rewrite <- app_assoc.
Qed.

Lemma tabler_str_rows (m : Map.t) :
  Map.tabler_str m
  = Some (String.concat newline
            ([Map.horizontal_line (Map.get_size m)]
             ++ (tabler_row m <$> range (Map.get_size m))
             ++ [Map.bottom_line (Map.get_size m)])).
Proof.
  unfold Map.tabler_str. cbv zeta.
  destruct (decide (0 < Map.get_size m)) as [Hpos|Hneg].
  - destruct (tabler_outer_loop m (range (Map.get_size m))
                [Map.horizontal_line (Map.get_size m)] None Hpos)
      as (x1 & Hrun).
    cbv zeta in Hrun. rewrite Hrun. cbn [mbind option_bind].
    by rewrite <- app_assoc.
  - unfold range. rewrite seqZ_nil by lia. done.
Qed.

(** X20.  [tabler_str] always returns a string, and this string has no
    separating line: its lines are the top line, one line per row of cells,
    and the bottom line, none of which is the separating line.  The test
    that guards the separating line reads [x] after the inner loop, where
    it is [size - 1]. *)
Theorem tabler_str_has_no_middle_line (m : Map.t) :
  ∃ rows,
    Map.tabler_str m = Some (String.concat newline rows)
    ∧ rows = [Map.horizontal_line (Map.get_size m)]
             ++ (tabler_row m <$> range (Map.get_size m))
             ++ [Map.bottom_line (Map.get_size m)]
    ∧ Map.middle_line (Map.get_size m) ∉ rows.
Proof.
  eexists. split; [apply tabler_str_rows|]. split; [done|].
  rewrite !elem_of_app, !list_elem_of_singleton, list_elem_of_fmap.
  unfold Map.middle_line, Map.horizontal_line, Map.bottom_line, tabler_row.
  intros [H|[(y & H & _)|H]]; simpl in H; discriminate H.
Qed.

(** X21.  The views read the cells of the grid only: two maps of the same
    size that hold the same objects on [[0, size-1] x [0, size-1]] have the
    same [get_map_list] and the same [tabler_str], whatever they hold
    elsewhere. *)
Theorem views_read_the_grid_only (m1 m2 : Map.t) :
  Map.get_size m1 = Map.get_size m2 →
  (∀ c, in_bounds m1 c → Map.get m1 c = Map.get m2 c) →
  Map.get_map_list m1 = Map.get_map_list m2
  ∧ Map.tabler_str m1 = Map.tabler_str m2.
Proof.
  intros Hsize Hget. split.
  - unfold Map.get_map_list. rewrite <- Hsize.
    apply list_fmap_ext. intros k i Hi.
    apply list_fmap_ext. intros k' j Hj.
    apply list_elem_of_lookup_2, elem_of_range in Hi, Hj.
    apply Hget. unfold in_bounds. simpl. lia.
  - rewrite !tabler_str_rows, <- Hsize. do 4 f_equal.
    apply list_fmap_ext. intros k y Hy. unfold tabler_row.
    rewrite <- Hsize. do 3 f_equal.
    apply list_fmap_ext. intros k' x Hx. unfold Map.tabler_cell.
    apply list_elem_of_lookup_2, elem_of_range in Hx, Hy.
    rewrite Hget; [done|]. unfold in_bounds. simpl. lia.
Qed.

Lemma views_read_the_grid_only_witness :
  Map.get_map_list Scenario.grid5
  = Map.get_map_list
      (Map.setitem (Coordinate 5 5) (Some Scenario.B) Scenario.grid5)
  ∧ Map.tabler_str Scenario.grid5
    = Map.tabler_str
        (Map.setitem (Coordinate 5 5) (Some Scenario.B) Scenario.grid5).
Proof.
  apply (views_read_the_grid_only Scenario.grid5
           (Map.setitem (Coordinate 5 5) (Some Scenario.B) Scenario.grid5)).
  - reflexivity.
  - intros c [Hx Hy]. rewrite get_setitem, decide_False; [done|].
    intros <-. simpl in Hx. lia.
Defined.
